(** * The cart store of [src/hooks/useCart.tsx]

    A shallow embedding of [CartProvider]: the React state [cart], the
    [localStorage] entry ['@RocketShoes:cart'], the two [api.get] calls
    and the [toast.error] notifications, with the three operations
    [addProduct], [removeProduct] and [updateProductAmount].

    Modelling choices, all local to this file:
    - a JavaScript [number] is an integer ([Z]): ids, amounts and stock
      counts are integers in this program;
    - a JavaScript string is a [string] of code units below 256;
    - an object is its list of properties in insertion order; an
      object has no two properties of the same name;
    - the promise returned by [api.get] either resolves with the data
      or rejects, which [await] turns into a thrown exception;
    - a call runs to its end before the next one starts: calls that
      overlap at an [await] are not modelled. *)

From Stdlib Require Import ZArith List String Ascii Bool Lia.
From Stdlib Require Import Decimal DecimalString DecimalFacts DecimalPos DecimalN DecimalZ.
Import ListNotations.

Local Open Scope string_scope.
Local Open Scope list_scope.
Local Open Scope Z_scope.

(** ** JavaScript values *)

Unset Elimination Schemes.
Inductive value : Type :=
| VNull
| VBool (b : bool)
| VNum (n : Z)
| VStr (s : string)
| VArr (items : list value)
| VObj (props : list (string * value)).
Set Elimination Schemes.

Definition object : Type := list (string * value).

(** [o.k]; [None] stands for [undefined]. *)
Fixpoint get (k : string) (o : object) : option value :=
  match o with
  | [] => None
  | (k', v) :: o' => if String.eqb k k' then Some v else get k o'
  end.

(** [o.k = v]: an existing property keeps its place, a new one goes last. *)
Fixpoint set (k : string) (v : value) (o : object) : object :=
  match o with
  | [] => [(k, v)]
  | (k', v') :: o' =>
      if String.eqb k k' then (k', v) :: o' else (k', v') :: set k v o'
  end.

Definition keys (o : object) : list string := map fst o.

Section Lists.

Context {A : Type}.

(** [P] holds of every element. *)
Fixpoint every (P : A -> Prop) (l : list A) : Prop :=
  match l with
  | [] => True
  | x :: l' => P x /\ every P l'
  end.

(** The texts of the elements, a comma between two neighbours. *)
Fixpoint separated (f : A -> string) (l : list A) : string :=
  match l with
  | [] => ""
  | x :: l' =>
      match l' with
      | [] => f x
      | _ :: _ => f x ++ "," ++ separated f l'
      end
  end%string.

End Lists.

(** Representation invariant of values: property names are unique in
    every object, at every depth. *)
Fixpoint wf_value (v : value) : Prop :=
  match v with
  | VArr items => every wf_value items
  | VObj props =>
      NoDup (keys props) /\ every (fun kv => wf_value (snd kv)) props
  | _ => True
  end.

(** Number of nodes of a value, an element or a property counting one
    more than its value. *)
Fixpoint size (v : value) : nat :=
  match v with
  | VArr items => S (list_sum (map (fun x => S (size x)) items))
  | VObj props => S (list_sum (map (fun kv => S (size (snd kv))) props))
  | _ => 1%nat
  end.

(** ** [JSON.stringify] and [JSON.parse] *)

Module JSON.

Local Open Scope string_scope.

Definition dquote : ascii := "034"%char.
Definition backslash : ascii := "\"%char.

Definition hex_digit (n : N) : ascii :=
  match n with
  | 0 => "0" | 1 => "1" | 2 => "2" | 3 => "3" | 4 => "4"
  | 5 => "5" | 6 => "6" | 7 => "7" | 8 => "8" | 9 => "9"
  | 10 => "a" | 11 => "b" | 12 => "c" | 13 => "d" | 14 => "e"
  | _ => "f"
  end%N%char.

(** The text [JSON.stringify] writes for one code unit of a string. *)
Definition escape (c : ascii) : string :=
  if Ascii.eqb c dquote then String backslash (String dquote "")
  else if Ascii.eqb c backslash then String backslash (String backslash "")
  else if Ascii.eqb c "008" then "\b"
  else if Ascii.eqb c "012" then "\f"
  else if Ascii.eqb c "010" then "\n"
  else if Ascii.eqb c "013" then "\r"
  else if Ascii.eqb c "009" then "\t"
  else if (N_of_ascii c <? 32)%N then
    "\u00" ++ String (hex_digit (N_of_ascii c / 16))
                (String (hex_digit (N_of_ascii c mod 16)) "")
  else String c "".

Fixpoint escape_all (s : string) : string :=
  match s with
  | EmptyString => ""
  | String c s' => escape c ++ escape_all s'
  end.

Definition quote (s : string) : string :=
  String dquote (escape_all s ++ String dquote "").

Definition number_to_string (n : Z) : string :=
  NilEmpty.string_of_int (Z.to_int n).

Fixpoint stringify (v : value) : string :=
  match v with
  | VNull => "null"
  | VBool true => "true"
  | VBool false => "false"
  | VNum n => number_to_string n
  | VStr s => quote s
  | VArr items => "[" ++ separated stringify items ++ "]"
  | VObj props =>
      "{" ++ separated (fun kv => quote (fst kv) ++ ":" ++ stringify (snd kv)) props
          ++ "}"
  end.

(** The text of one property of an object. *)
Definition member (kv : string * value) : string :=
  quote (fst kv) ++ ":" ++ stringify (snd kv).

(** The readers below return what they read and the text left. *)

Definition starts_with (c : ascii) (s : string) : bool :=
  match s with
  | String c' _ => Ascii.eqb c' c
  | EmptyString => false
  end.

Definition tail (s : string) : string :=
  match s with
  | String _ s' => s'
  | EmptyString => s
  end.

Definition is_ws (c : ascii) : bool :=
  Ascii.eqb c " " || Ascii.eqb c "009" || Ascii.eqb c "010" || Ascii.eqb c "013".

Fixpoint skip_ws (s : string) : string :=
  match s with
  | String c s' => if is_ws c then skip_ws s' else s
  | EmptyString => s
  end.

(** The text after the literal [lit], when the text starts with it. *)
Fixpoint after (lit s : string) : option string :=
  match lit with
  | EmptyString => Some s
  | String c lit' =>
      match s with
      | String c' s' => if Ascii.eqb c c' then after lit' s' else None
      | EmptyString => None
      end
  end.

Definition digit_of (c : ascii) : option (uint -> uint) :=
  match c with
  | "0" => Some D0 | "1" => Some D1 | "2" => Some D2 | "3" => Some D3
  | "4" => Some D4 | "5" => Some D5 | "6" => Some D6 | "7" => Some D7
  | "8" => Some D8 | "9" => Some D9 | _ => None
  end%char.

(** The longest run of decimal digits at the head of the text. *)
Fixpoint read_digits (s : string) : uint * string :=
  match s with
  | String c s' =>
      match digit_of c with
      | Some d => let (u, r) := read_digits s' in (d u, r)
      | None => (Nil, s)
      end
  | EmptyString => (Nil, s)
  end.

Definition starts_fraction (s : string) : bool :=
  match s with
  | String c _ => Ascii.eqb c "." || Ascii.eqb c "e" || Ascii.eqb c "E"
  | EmptyString => false
  end.

(** JSON's [int] production: a lone [0] or a digit string that does not
    start with [0]. *)
Definition canonical (u : uint) : bool :=
  match u with
  | Nil => false
  | D0 Nil => true
  | D0 _ => false
  | _ => true
  end.

(** A number without fraction or exponent; a fraction or an exponent is
    outside the integer model and is refused. *)
Definition parse_number (s : string) : option (Z * string) :=
  let negative := starts_with "-" s in
  let '(u, r) := read_digits (if negative then tail s else s) in
  if canonical u && negb (starts_fraction r)
  then Some (Z.of_int (if negative then Neg u else Pos u), r)
  else None.

(** The value of a hexadecimal digit, of either case. *)
Definition hex_value (c : ascii) : option N :=
  let n := N_of_ascii c in
  if ((48 <=? n) && (n <=? 57))%N then Some (n - 48)%N
  else if ((97 <=? n) && (n <=? 102))%N then Some (n - 87)%N
  else if ((65 <=? n) && (n <=? 70))%N then Some (n - 55)%N
  else None.

(** The code unit written [\uXXXX], when it is below 256. *)
Definition unicode_escape (h1 h2 h3 h4 : ascii) : option ascii :=
  match hex_value h1, hex_value h2, hex_value h3, hex_value h4 with
  | Some a, Some b, Some c, Some d =>
      let code := (((a * 16 + b) * 16 + c) * 16 + d)%N in
      if (code <? 256)%N then Some (ascii_of_N code) else None
  | _, _, _, _ => None
  end.

Definition simple_escape (c : ascii) : option ascii :=
  if Ascii.eqb c dquote then Some dquote
  else if Ascii.eqb c backslash then Some backslash
  else match c with
       | "/" => Some "/" | "b" => Some "008" | "f" => Some "012"
       | "n" => Some "010" | "r" => Some "013" | "t" => Some "009"
       | _ => None
       end%char.

(** The characters of a string literal after its opening quote, up to
    and including the closing quote. *)
Fixpoint parse_chars (s : string) : option (string * string) :=
  match s with
  | EmptyString => None
  | String c s' =>
      if Ascii.eqb c dquote then Some ("", s')
      else if Ascii.eqb c backslash then
        match s' with
        | String e r =>
            if Ascii.eqb e "u" then
              match r with
              | String h1 (String h2 (String h3 (String h4 r'))) =>
                  match unicode_escape h1 h2 h3 h4, parse_chars r' with
                  | Some a, Some (t, r'') => Some (String a t, r'')
                  | _, _ => None
                  end
              | _ => None
              end
            else
              match simple_escape e, parse_chars r with
              | Some a, Some (t, r') => Some (String a t, r')
              | _, _ => None
              end
        | EmptyString => None
        end
      else if (N_of_ascii c <? 32)%N then None
      else
        match parse_chars s' with
        | Some (t, r') => Some (String c t, r')
        | None => None
        end
  end.

Definition parse_string (s : string) : option (string * string) :=
  match s with
  | String c s' => if Ascii.eqb c dquote then parse_chars s' else None
  | EmptyString => None
  end.

(** Properties are defined in the order they are read; a repeated name
    overwrites the earlier value. *)
Definition define_all (members : list (string * value)) : object :=
  fold_left (fun o kv => set (fst kv) (snd kv) o) members [].

Fixpoint parse_value (fuel : nat) (s : string) : option (value * string) :=
  match fuel with
  | O => None
  | S fuel' =>
      let s := skip_ws s in
      if starts_with "n" s then
        option_map (pair VNull) (after "null" s)
      else if starts_with "t" s then
        option_map (pair (VBool true)) (after "true" s)
      else if starts_with "f" s then
        option_map (pair (VBool false)) (after "false" s)
      else if starts_with dquote s then
        match parse_chars (tail s) with
        | Some (t, r) => Some (VStr t, r)
        | None => None
        end
      else if starts_with "[" s then
        if starts_with "]" (skip_ws (tail s)) then
          Some (VArr [], tail (skip_ws (tail s)))
        else
          match parse_elements fuel' (tail s) with
          | Some (l, r) => Some (VArr l, r)
          | None => None
          end
      else if starts_with "{" s then
        if starts_with "}" (skip_ws (tail s)) then
          Some (VObj [], tail (skip_ws (tail s)))
        else
          match parse_members fuel' (tail s) with
          | Some (m, r) => Some (VObj (define_all m), r)
          | None => None
          end
      else
        match parse_number s with
        | Some (n, r) => Some (VNum n, r)
        | None => None
        end
  end

with parse_elements (fuel : nat) (s : string) : option (list value * string) :=
  match fuel with
  | O => None
  | S fuel' =>
      match parse_value fuel' s with
      | Some (x, r) =>
          let r := skip_ws r in
          if starts_with "," r then
            match parse_elements fuel' (tail r) with
            | Some (l, r') => Some (x :: l, r')
            | None => None
            end
          else if starts_with "]" r then Some ([x], tail r)
          else None
      | None => None
      end
  end

with parse_members (fuel : nat) (s : string)
  : option (list (string * value) * string) :=
  match fuel with
  | O => None
  | S fuel' =>
      match parse_string (skip_ws s) with
      | Some (k, r) =>
          let r := skip_ws r in
          if starts_with ":" r then
            match parse_value fuel' (tail r) with
            | Some (x, r') =>
                let r' := skip_ws r' in
                if starts_with "," r' then
                  match parse_members fuel' (tail r') with
                  | Some (m, r'') => Some ((k, x) :: m, r'')
                  | None => None
                  end
                else if starts_with "}" r' then Some ([(k, x)], tail r')
                else None
            | None => None
            end
          else None
      | None => None
      end
  end.

(** [JSON.parse text]; [None] when it throws a [SyntaxError] (or when the
    text leaves the model of integers and of code units below 256). *)
Definition parse (text : string) : option value :=
  match parse_value (S (String.length text)) text with
  | Some (v, r) =>
      match skip_ws r with
      | EmptyString => Some v
      | String _ _ => None
      end
  | None => None
  end.

(** A text that may follow a value inside an array or an object, or end
    the whole text. *)
Definition delimited (s : string) : Prop :=
  s = "" \/ starts_with "," s = true \/ starts_with "]" s = true
  \/ starts_with "}" s = true.

Definition no_digit_ahead (k : string) : Prop :=
  match k with
  | String c _ => digit_of c = None
  | EmptyString => True
  end.

End JSON.

(** ** The cart store *)

(** Modelled from the spec: the interface [Product] of [../types], which
    is not among the sources. A cart item is an object with an integer
    [id], an integer [amount] and the fields of the catalog, passed
    through unchanged; the code reads and writes only [id] and
    [amount]. *)
Definition Product : Type := object.

(** [product => product.id === productId] *)
Definition has_id (productId : Z) (product : Product) : bool :=
  match get "id" product with
  | Some (VNum n) => n =? productId
  | _ => false
  end.

(** [Array.prototype.findIndex]: the index of the first element that
    satisfies [f], [-1] when there is none. *)
Fixpoint findIndex_from {A : Type} (i : Z) (f : A -> bool) (l : list A) : Z :=
  match l with
  | [] => -1
  | x :: l' => if f x then i else findIndex_from (i + 1) f l'
  end.

Definition findIndex {A : Type} (f : A -> bool) (l : list A) : Z :=
  findIndex_from 0 f l.

(** [array.splice(start, deleteCount)] for [0 <= start], the only way
    the code calls it. *)
Definition splice {A : Type} (start : Z) (deleteCount : nat) (l : list A) : list A :=
  firstn (Z.to_nat start) l ++ skipn (Z.to_nat start + deleteCount) l.

(** [productExists.amount = amount] where [productExists] is what
    [updatedCart.find(product => product.id === productId)] returned:
    [updatedCart] is a copy of the array, not of its objects, so the
    write lands in the first element that has the id. *)
Fixpoint assign_amount (productId amount : Z) (updatedCart : list Product)
  : list Product :=
  match updatedCart with
  | [] => []
  | product :: rest =>
      if has_id productId product
      then set "amount" (VNum amount) product :: rest
      else product :: assign_amount productId amount rest
  end.

(** The array of products as a JavaScript value. *)
Definition cart_value (c : list Product) : value := VArr (map VObj c).

Fixpoint as_objects (l : list value) : option (list object) :=
  match l with
  | [] => Some []
  | VObj o :: l' =>
      match as_objects l' with
      | Some os => Some (o :: os)
      | None => None
      end
  | _ :: _ => None
  end.

(** The [any] that [JSON.parse] returns, used as a [Product[]]. *)
Definition as_cart (v : value) : option (list Product) :=
  match v with
  | VArr items => as_objects items
  | _ => None
  end.

(** The messages of the four [toast.error] calls. *)
Definition out_of_stock : string := "Quantidade solicitada fora de estoque".
Definition add_failed : string := "Erro na adição do produto".
Definition remove_failed : string := "Erro na remoção do produto".
Definition update_failed : string := "Erro na alteração de quantidade do produto".

(** The two resources [api.get] is called on:
    [/stock/${productId}] and [/products/${productId}]. *)
Inductive request : Type :=
| GetStock (productId : Z)
| GetProduct (productId : Z).

(** What the provider owns and what it does to the outside: the React
    state, the value stored under ['@RocketShoes:cart'] ([None] when the
    key is absent), the notifications shown and the requests sent, both
    oldest first. *)
Record World : Type := mkWorld {
  cart : list Product;
  storage : option string;
  toasts : list string;
  requests : list request
}.

(** Modelled from the spec: the client [api] of [../services/api], which
    is not among the sources, and the services behind it. The stock
    service answers a product id with [{ amount: integer }], the catalog
    with the fields of the product. [Env] is what the outside answers
    during one call: [stock.data.amount] and [product.data], [None] when
    the promise rejects; and whether [localStorage.setItem] stores the
    value or throws. *)
Record Env : Type := mkEnv {
  stock_amount : Z -> option Z;
  product_data : Z -> option object;
  storage_accepts : bool
}.

(** *** Statements with effects *)

Inductive outcome (A : Type) : Type :=
| Normal (a : A)   (* completed *)
| Thrown           (* an exception is in flight *)
| IllTyped.        (* a [number] was read where the object holds none:
                      excluded by the type [Product], not modelled *)

Arguments Normal {A} a.
Arguments Thrown {A}.
Arguments IllTyped {A}.

Definition M (A : Type) : Type := Env -> World -> outcome A * World.

Definition ret {A : Type} (a : A) : M A := fun _ w => (Normal a, w).

Definition bind {A B : Type} (m : M A) (k : A -> M B) : M B :=
  fun e w =>
    match m e w with
    | (Normal a, w') => k a e w'
    | (Thrown, w') => (Thrown, w')
    | (IllTyped, w') => (IllTyped, w')
    end.

Notation "x <- m ;; k" := (bind m (fun x => k))
  (at level 61, m at next level, right associativity).
Notation "m ;; k" := (bind m (fun _ => k))
  (at level 61, right associativity).

(** [try { body } catch { handler }] *)
Definition try_catch (body handler : M unit) : M unit :=
  fun e w =>
    match body e w with
    | (Thrown, w') => handler e w'
    | r => r
    end.

(** The [cart] of the render the closure was created in. *)
Definition read_cart : M (list Product) := fun _ w => (Normal (cart w), w).

Definition setCart (c : list Product) : M unit :=
  fun _ w => (Normal tt, mkWorld c (storage w) (toasts w) (requests w)).

(** [localStorage.setItem('@RocketShoes:cart', text)] *)
Definition localStorage_setItem (text : string) : M unit :=
  fun e w =>
    if storage_accepts e
    then (Normal tt, mkWorld (cart w) (Some text) (toasts w) (requests w))
    else (Thrown, w).

Definition toast_error (message : string) : M unit :=
  fun _ w => (Normal tt, mkWorld (cart w) (storage w) (toasts w ++ [message]) (requests w)).

Definition sent (r : request) (w : World) : World :=
  mkWorld (cart w) (storage w) (toasts w) (requests w ++ [r]).

(** [(await api.get(`/stock/${productId}`)).data.amount] *)
Definition api_get_stock (productId : Z) : M Z :=
  fun e w =>
    match stock_amount e productId with
    | Some n => (Normal n, sent (GetStock productId) w)
    | None => (Thrown, sent (GetStock productId) w)
    end.

(** [(await api.get(`/products/${productId}`)).data] *)
Definition api_get_product (productId : Z) : M object :=
  fun e w =>
    match product_data e productId with
    | Some o => (Normal o, sent (GetProduct productId) w)
    | None => (Thrown, sent (GetProduct productId) w)
    end.

(** A property read at type [number]. *)
Definition number (v : option value) : M Z :=
  fun _ w =>
    match v with
    | Some (VNum n) => (Normal n, w)
    | _ => (IllTyped, w)
    end.

Definition throw_Error : M unit := fun _ w => (Thrown, w).

(** *** The provider *)

(** The initializer passed to [useState]; [None] when [JSON.parse]
    throws or returns something that is no array of objects. *)
Definition initial_cart (storagedCart : option string) : option (list Product) :=
  match storagedCart with
  | Some text =>
      match text with
      | String _ _ =>
          match JSON.parse text with
          | Some v => as_cart v
          | None => None
          end
      | EmptyString => Some []
      end
  | None => Some []
  end.

Definition addProduct (productId : Z) : M unit :=
  try_catch
    (updatedCart <- read_cart ;;
     let productExists := find (has_id productId) updatedCart in
     stockAmount <- api_get_stock productId ;;
     currentAmount <- match productExists with
                      | Some product => number (get "amount" product)
                      | None => ret 0
                      end ;;
     let amount := currentAmount + 1 in
     if amount >? stockAmount then
       toast_error out_of_stock
     else
       updatedCart <- match productExists with
                      | Some _ => ret (assign_amount productId amount updatedCart)
                      | None =>
                          product <- api_get_product productId ;;
                          let newProduct := set "amount" (VNum 1) product in
                          ret (updatedCart ++ [newProduct])
                      end ;;
       setCart updatedCart ;;
       localStorage_setItem (JSON.stringify (cart_value updatedCart)))
    (toast_error add_failed).

Definition removeProduct (productId : Z) : M unit :=
  try_catch
    (updatedCart <- read_cart ;;
     let productIndex := findIndex (has_id productId) updatedCart in
     if productIndex >=? 0 then
       let updatedCart := splice productIndex 1 updatedCart in
       setCart updatedCart ;;
       localStorage_setItem (JSON.stringify (cart_value updatedCart))
     else
       throw_Error)
    (toast_error remove_failed).

Definition updateProductAmount (productId amount : Z) : M unit :=
  try_catch
    (if amount <=? 0 then
       ret tt
     else
       stockAmount <- api_get_stock productId ;;
       if amount >? stockAmount then
         toast_error out_of_stock
       else
         updatedCart <- read_cart ;;
         let productExists := find (has_id productId) updatedCart in
         match productExists with
         | Some _ =>
             let updatedCart := assign_amount productId amount updatedCart in
             setCart updatedCart ;;
             localStorage_setItem (JSON.stringify (cart_value updatedCart))
         | None => throw_Error
         end)
    (toast_error update_failed).

(** ** Vocabulary of the specification *)

(** The amount the cart holds of a product: the amount of its item, [0]
    when the cart has no item of that id. *)
Definition currentAmount (productId : Z) (c : list Product) : option Z :=
  match find (has_id productId) c with
  | Some product =>
      match get "amount" product with
      | Some (VNum a) => Some a
      | _ => None
      end
  | None => Some 0
  end.

(** [c] is [before], then the first item of id [productId], then [after]. *)
Definition located (productId : Z) (c before : list Product) (item : Product)
  (after : list Product) : Prop :=
  c = before ++ item :: after /\
  (forall q, In q before -> has_id productId q = false) /\
  has_id productId item = true.

(** The world after a call that shows [message] and changes nothing
    else, having sent the requests [rs]. *)
Definition refused (message : string) (rs : list request) (w : World) : World :=
  mkWorld (cart w) (storage w) (toasts w ++ [message]) (requests w ++ rs).

(** The world after a call that replaces the cart by [c] and stores it. *)
Definition committed (c : list Product) (rs : list request) (w : World) : World :=
  mkWorld c (Some (JSON.stringify (cart_value c))) (toasts w) (requests w ++ rs).

(** The steps of [addProduct] that can raise. *)
Inductive step : Type := StockFetch | CatalogFetch | StorageWrite.

(** [add_fails productId e w s]: in the run of [addProduct productId] from
    [w] with the answers of [e], step [s] is reached and raises. *)
Inductive add_fails (productId : Z) (e : Env) (w : World) : step -> Prop :=
| stock_fetch_fails :
    stock_amount e productId = None ->
    add_fails productId e w StockFetch
| catalog_fetch_fails (stockAmount : Z) :
    stock_amount e productId = Some stockAmount ->
    find (has_id productId) (cart w) = None ->
    1 <= stockAmount ->
    product_data e productId = None ->
    add_fails productId e w CatalogFetch
| storage_write_fails (stockAmount amount : Z) :
    stock_amount e productId = Some stockAmount ->
    currentAmount productId (cart w) = Some amount ->
    amount + 1 <= stockAmount ->
    (find (has_id productId) (cart w) = None -> product_data e productId <> None) ->
    storage_accepts e = false ->
    add_fails productId e w StorageWrite.

(** The same answers, with a store that takes the write. *)
Definition accepting (e : Env) : Env :=
  mkEnv (stock_amount e) (product_data e) true.

(** The catalog answers a request for a product with the record of that
    product, an object whose [id] is the id asked for; the comment at
    line 45 of the source says so of the server: it returns
    "os dados do produto que tem o id = productId". *)
Definition catalog_serves (e : Env) (productId : Z) : Prop :=
  forall data,
    product_data e productId = Some data ->
    get "id" data = Some (VNum productId) /\ wf_value (VObj data).

(** The worlds the provider can be in: it starts with nothing stored and
    an empty cart; each call of an operation, whatever the services
    answer, leads to the next world; and the provider can be mounted
    again, which loads the cart from the store. *)
Inductive reachable : World -> Prop :=
| reach_start : reachable (mkWorld [] None [] [])
| reach_add (w : World) (e : Env) (productId : Z) :
    reachable w -> catalog_serves e productId ->
    reachable (snd (addProduct productId e w))
| reach_remove (w : World) (e : Env) (productId : Z) :
    reachable w ->
    reachable (snd (removeProduct productId e w))
| reach_update (w : World) (e : Env) (productId amount : Z) :
    reachable w ->
    reachable (snd (updateProductAmount productId amount e w))
| reach_mount (w : World) (c : list Product) :
    reachable w -> initial_cart (storage w) = Some c ->
    reachable (mkWorld c (storage w) (toasts w) (requests w)).

(** Every item has an amount of at least one. *)
Definition amounts_positive (c : list Product) : Prop :=
  forall item, In item c ->
    exists a, get "amount" item = Some (VNum a) /\ 1 <= a.

(** No two items have the same id. *)
Definition ids_unique (c : list Product) : Prop := NoDup (map (get "id") c).

(** What the operations maintain of an item, of a cart and of a world. *)
Definition item_ok (item : Product) : Prop :=
  (exists n, get "id" item = Some (VNum n)) /\
  (exists a, get "amount" item = Some (VNum a) /\ 1 <= a) /\
  wf_value (VObj item).

Definition cart_ok (c : list Product) : Prop :=
  Forall item_ok c /\ ids_unique c.

Definition world_ok (w : World) : Prop :=
  cart_ok (cart w) /\
  match storage w with
  | Some text => exists c, text = JSON.stringify (cart_value c) /\ cart_ok c
  | None => True
  end.

(** Example data. *)
Definition shoe (n : Z) : object :=
  [("id", VNum n); ("title", VStr "Tenis de Caminhada"); ("price", VNum 180);
   ("image", VStr "https://rocketshoes.example/1.jpg")].

Definition in_cart (n a : Z) : Product := set "amount" (VNum a) (shoe n).

Definition shop (stock : Z) : Env :=
  mkEnv (fun _ => Some stock) (fun n => Some (shoe n)) true.

Definition full_store (stock : Z) : Env :=
  mkEnv (fun _ => Some stock) (fun n => Some (shoe n)) false.

Definition offline : Env :=
  mkEnv (fun _ => None) (fun _ => None) true.

(** A catalog whose answer carries an [amount] of its own. *)
Definition catalog_with_amount : Env :=
  mkEnv (fun _ => Some 3) (fun n => Some (("amount", VNum 40) :: shoe n)) true.

Definition empty_world : World := mkWorld [] None [] [].

(** A session: product 1 added twice, product 2 added and set to three,
    product 1 removed, the page reloaded. *)
Definition session : World :=
  let w1 := snd (addProduct 1 (shop 5) empty_world) in
  let w2 := snd (addProduct 1 (shop 5) w1) in
  let w3 := snd (addProduct 2 (shop 5) w2) in
  let w4 := snd (updateProductAmount 2 3 (shop 5) w3) in
  let w5 := snd (removeProduct 1 (shop 5) w4) in
  mkWorld [in_cart 2 3] (storage w5) (toasts w5) (requests w5).

(** The store agrees with the memory: the stored value is the text of
    the cart, or nothing is stored and the cart is empty. *)
Definition in_sync (w : World) : Prop :=
  storage w = Some (JSON.stringify (cart_value (cart w))) \/
  (storage w = None /\ cart w = []).

(** The world after a call that replaced the cart by [c] and whose write
    the store refused: [message] is shown, the stored value is as before. *)
Definition unsaved (c : list Product) (message : string) (rs : list request)
  (w : World) : World :=
  mkWorld c (storage w) (toasts w ++ [message]) (requests w ++ rs).

Definition holding (c : list Product) : World :=
  mkWorld c (Some (JSON.stringify (cart_value c))) [] [].

(** ** Properties of objects and arrays *)

Lemma get_set_same (k : string) (v : value) (o : object) :
  get k (set k v o) = Some v.
Proof.
  induction o as [|[k' v'] o IH]; simpl.
  - now rewrite String.eqb_refl.
  - destruct (String.eqb k k') eqn:E; simpl; rewrite E; auto.
Qed.

Lemma get_set_other (k k' : string) (v : value) (o : object) :
  k' <> k -> get k' (set k v o) = get k' o.
Proof.
  intros Hne. induction o as [|[k0 v0] o IH]; simpl.
  - destruct (String.eqb k' k) eqn:E; auto.
    apply String.eqb_eq in E. contradiction.
  - destruct (String.eqb k k0) eqn:E; simpl.
    + apply String.eqb_eq in E. subst k0.
      destruct (String.eqb k' k) eqn:E'; auto.
      apply String.eqb_eq in E'. contradiction.
    + now rewrite IH.
Qed.

Lemma set_unchanged (k : string) (v : value) (o : object) :
  get k o = Some v -> set k v o = o.
Proof.
  induction o as [|[k' v'] o IH]; simpl; [discriminate|].
  destruct (String.eqb k k') eqn:E.
  - now intros [= ->].
  - intros H. now rewrite IH.
Qed.

Lemma has_id_set_amount (productId a : Z) (p : Product) :
  has_id productId (set "amount" (VNum a) p) = has_id productId p.
Proof.
  unfold has_id. now rewrite get_set_other.
Qed.

Lemma find_located (productId : Z) (c before after : list Product) (item : Product) :
  located productId c before item after ->
  find (has_id productId) c = Some item.
Proof.
  intros (-> & Hb & Hi).
  induction before as [|q b IH]; simpl.
  - now rewrite Hi.
  - rewrite (Hb q) by now left. apply IH. intros; apply Hb; now right.
Qed.

Lemma find_some_located (productId : Z) (c : list Product) (item : Product) :
  find (has_id productId) c = Some item ->
  exists before after, located productId c before item after.
Proof.
  induction c as [|q c IH]; simpl; [discriminate|].
  destruct (has_id productId q) eqn:E.
  - intros [= ->]. exists [], c. repeat split; auto. intros ? [].
  - intros H. destruct (IH H) as (b & a & -> & Hb & Hi).
    exists (q :: b), a. repeat split; auto.
    intros x [<-|Hx]; auto.
Qed.

Lemma assign_amount_located (productId a : Z) (c before after : list Product)
  (item : Product) :
  located productId c before item after ->
  assign_amount productId a c = before ++ set "amount" (VNum a) item :: after.
Proof.
  intros (-> & Hb & Hi).
  induction before as [|q b IH]; simpl.
  - now rewrite Hi.
  - rewrite (Hb q) by now left. f_equal. apply IH. intros; apply Hb; now right.
Qed.

Lemma findIndex_from_located (productId i : Z) (c before after : list Product)
  (item : Product) :
  located productId c before item after ->
  findIndex_from i (has_id productId) c = i + Z.of_nat (List.length before).
Proof.
  intros (-> & Hb & Hi). revert i.
  induction before as [|q b IH]; intros i; simpl List.length; simpl findIndex_from.
  - rewrite Hi. lia.
  - rewrite (Hb q) by now left. rewrite IH by (intros; apply Hb; now right). lia.
Qed.

Lemma findIndex_from_none {A : Type} (f : A -> bool) (i : Z) (l : list A) :
  find f l = None -> findIndex_from i f l = -1.
Proof.
  revert i. induction l as [|x l IH]; intros i; simpl; auto.
  destruct (f x); [discriminate|auto].
Qed.

Lemma splice_middle {A : Type} (before after : list A) (x : A) :
  splice (Z.of_nat (List.length before)) 1 (before ++ x :: after) = before ++ after.
Proof.
  unfold splice. rewrite Nat2Z.id.
  rewrite firstn_app, Nat.sub_diag, firstn_all. simpl. rewrite List.app_nil_r.
  f_equal. rewrite skipn_app.
  replace (List.length before + 1 - List.length before)%nat with 1%nat by lia.
  rewrite skipn_all2 by lia. reflexivity.
Qed.

(** ** The three operations, branch by branch *)

Ltac run :=
  unfold addProduct, removeProduct, updateProductAmount, try_catch, bind,
    read_cart, api_get_stock, api_get_product, number, ret, setCart,
    localStorage_setItem, toast_error, throw_Error, sent, refused, committed;
  simpl.

Lemma gtb_true (a b : Z) : a > b -> (a >? b) = true.
Proof. intros. apply Z.gtb_lt. lia. Qed.

Lemma gtb_false (a b : Z) : a <= b -> (a >? b) = false.
Proof. intros. rewrite Z.gtb_ltb. apply Z.ltb_ge. lia. Qed.

Lemma currentAmount_found (productId a : Z) (c : list Product) (item : Product) :
  find (has_id productId) c = Some item ->
  currentAmount productId c = Some a ->
  get "amount" item = Some (VNum a).
Proof.
  unfold currentAmount. intros ->.
  destruct (get "amount" item) as [[]|]; try discriminate. now intros [= ->].
Qed.

Lemma currentAmount_absent (productId a : Z) (c : list Product) :
  find (has_id productId) c = None ->
  currentAmount productId c = Some a ->
  a = 0.
Proof.
  unfold currentAmount. intros ->. now intros [= <-].
Qed.

(** The run of [addProduct] on an item the cart holds, up to the write. *)
Lemma addProduct_present (productId : Z) (e : Env) (w : World)
  (amount stockAmount : Z) (item : Product) :
  find (has_id productId) (cart w) = Some item ->
  get "amount" item = Some (VNum amount) ->
  stock_amount e productId = Some stockAmount ->
  amount + 1 <= stockAmount ->
  addProduct productId e w =
  let c := assign_amount productId (amount + 1) (cart w) in
  if storage_accepts e
  then (Normal tt, committed c [GetStock productId] w)
  else (Normal tt,
        mkWorld c (storage w) (toasts w ++ [add_failed])
          (requests w ++ [GetStock productId])).
Proof.
  intros Hf Ha Hs Hle. run. rewrite Hf, Hs, Ha.
  rewrite gtb_false by lia. simpl.
  destruct (storage_accepts e); reflexivity.
Qed.

(** The run of [addProduct] on a product the cart does not hold, once
    the catalog has answered. *)
Lemma addProduct_absent (productId : Z) (e : Env) (w : World)
  (stockAmount : Z) (data : object) :
  find (has_id productId) (cart w) = None ->
  stock_amount e productId = Some stockAmount ->
  1 <= stockAmount ->
  product_data e productId = Some data ->
  addProduct productId e w =
  let c := cart w ++ [set "amount" (VNum 1) data] in
  if storage_accepts e
  then (Normal tt, committed c [GetStock productId; GetProduct productId] w)
  else (Normal tt,
        mkWorld c (storage w) (toasts w ++ [add_failed])
          (requests w ++ [GetStock productId; GetProduct productId])).
Proof.
  intros Hf Hs Hle Hd. run. rewrite Hf, Hs. simpl.
  rewrite gtb_false by lia. rewrite Hd. simpl.
  rewrite <- app_assoc. simpl.
  destruct (storage_accepts e); reflexivity.
Qed.

(** C3. Out-of-stock guard of [addProduct]: when the amount held plus one
    exceeds the stock amount the stock service returns, the call shows the
    out-of-stock notification and leaves the cart and the stored value as
    they were; only the stock request was sent, nothing was written. *)
Theorem addProduct_out_of_stock (productId : Z) (e : Env) (w : World)
  (amount stockAmount : Z) :
  currentAmount productId (cart w) = Some amount ->
  stock_amount e productId = Some stockAmount ->
  amount + 1 > stockAmount ->
  addProduct productId e w =
  (Normal tt, refused out_of_stock [GetStock productId] w).
Proof.
  intros Hc Hs Hgt. run. rewrite Hs. unfold currentAmount in Hc.
  destruct (find (has_id productId) (cart w)) as [item|].
  - destruct (get "amount" item) as [[]|]; try discriminate.
    injection Hc as ->. simpl. now rewrite gtb_true.
  - injection Hc as <-. simpl. now rewrite gtb_true.
Qed.

Lemma addProduct_out_of_stock_witness :
  addProduct 1 (shop 1) (holding [in_cart 1 1]) =
  (Normal tt, refused out_of_stock [GetStock 1] (holding [in_cart 1 1])).
Proof.
  apply (addProduct_out_of_stock 1 (shop 1) (holding [in_cart 1 1]) 1 1);
    [reflexivity | reflexivity | lia].
Defined.

(** C4. [addProduct] in stock, the store taking the write: an item the
    cart holds has its amount incremented by one, its other fields and
    the other items unchanged; a product the cart does not hold is
    appended at the end as the catalog's data with [amount] 1; the whole
    updated cart is written to the store. *)
Theorem addProduct_in_stock (productId : Z) (e : Env) (w : World)
  (amount stockAmount : Z) :
  currentAmount productId (cart w) = Some amount ->
  stock_amount e productId = Some stockAmount ->
  amount + 1 <= stockAmount ->
  storage_accepts e = true ->
  (forall before item after,
      located productId (cart w) before item after ->
      let item' := set "amount" (VNum (amount + 1)) item in
      addProduct productId e w =
      (Normal tt, committed (before ++ item' :: after) [GetStock productId] w) /\
      get "amount" item = Some (VNum amount) /\
      get "amount" item' = Some (VNum (amount + 1)) /\
      (forall k, k <> "amount" -> get k item' = get k item)) /\
  (find (has_id productId) (cart w) = None ->
   forall data,
      product_data e productId = Some data ->
      let newProduct := set "amount" (VNum 1) data in
      addProduct productId e w =
      (Normal tt,
       committed (cart w ++ [newProduct]) [GetStock productId; GetProduct productId] w) /\
      get "amount" newProduct = Some (VNum 1) /\
      (forall k, k <> "amount" -> get k newProduct = get k data)).
Proof.
  intros Hc Hs Hle Hok. split.
  - intros before item after Hloc item'.
    pose proof (find_located _ _ _ _ _ Hloc) as Hf.
    pose proof (currentAmount_found _ _ _ _ Hf Hc) as Ha.
    rewrite (addProduct_present _ _ _ _ _ _ Hf Ha Hs Hle), Hok. simpl.
    rewrite (assign_amount_located _ _ _ _ _ _ Hloc).
    repeat split; auto.
    + apply get_set_same.
    + intros k Hk. now apply get_set_other.
  - intros Hf data Hd newProduct.
    pose proof (currentAmount_absent _ _ _ Hf Hc) as ->.
    rewrite (addProduct_absent _ _ _ _ _ Hf Hs Hle Hd), Hok. simpl.
    repeat split.
    + apply get_set_same.
    + intros k Hk. now apply get_set_other.
Qed.

Lemma addProduct_in_stock_witness :
  addProduct 1 (shop 5) empty_world =
  (Normal tt, committed [in_cart 1 1] [GetStock 1; GetProduct 1] empty_world) /\
  addProduct 1 (shop 5) (holding [in_cart 2 1; in_cart 1 2]) =
  (Normal tt,
   committed [in_cart 2 1; in_cart 1 3] [GetStock 1] (holding [in_cart 2 1; in_cart 1 2])).
Proof.
  split.
  - apply (addProduct_in_stock 1 (shop 5) empty_world 0 5);
      [reflexivity | reflexivity | lia | reflexivity | reflexivity | reflexivity].
  - destruct (addProduct_in_stock 1 (shop 5) (holding [in_cart 2 1; in_cart 1 2]) 2 5)
      as [Hpresent _]; [reflexivity | reflexivity | lia | reflexivity |].
    apply (Hpresent [in_cart 2 1] (in_cart 1 2) []).
    repeat split. intros q [<-|[]]. reflexivity.
Defined.

(** C10. The item [addProduct] appends for a product the cart does not
    hold has [amount] 1 whatever the catalog returned, an [amount] among
    the returned fields included: the constructed item overrides it. *)
Theorem new_item_amount_is_one (productId : Z) (e : Env) (w : World)
  (stockAmount : Z) (data : object) :
  find (has_id productId) (cart w) = None ->
  stock_amount e productId = Some stockAmount ->
  1 <= stockAmount ->
  product_data e productId = Some data ->
  exists newProduct,
    cart (snd (addProduct productId e w)) = cart w ++ [newProduct] /\
    get "amount" newProduct = Some (VNum 1) /\
    (forall k, k <> "amount" -> get k newProduct = get k data).
Proof.
  intros Hf Hs Hle Hd. exists (set "amount" (VNum 1) data).
  rewrite (addProduct_absent _ _ _ _ _ Hf Hs Hle Hd).
  split; [destruct (storage_accepts e); reflexivity|].
  split; [apply get_set_same|].
  intros k Hk. now apply get_set_other.
Qed.

Lemma new_item_amount_is_one_witness :
  exists newProduct,
    cart (snd (addProduct 7 catalog_with_amount empty_world)) = [newProduct] /\
    get "amount" newProduct = Some (VNum 1) /\
    (forall k, k <> "amount" ->
               get k newProduct = get k (("amount", VNum 40) :: shoe 7)).
Proof.
  apply (new_item_amount_is_one 7 catalog_with_amount empty_world 3
           (("amount", VNum 40) :: shoe 7));
    [reflexivity | reflexivity | lia | reflexivity].
Defined.

(** C6. [removeProduct]: when the cart holds an item of the id, the call
    removes that item and no other, the rest keeping its order, and
    writes the updated cart to the store; when it holds none, the call
    shows the removal-failed notification and changes neither the cart
    nor the stored value. *)
Theorem removeProduct_spec (productId : Z) (e : Env) (w : World) :
  (forall before item after,
      located productId (cart w) before item after ->
      storage_accepts e = true ->
      removeProduct productId e w = (Normal tt, committed (before ++ after) [] w)) /\
  (find (has_id productId) (cart w) = None ->
   removeProduct productId e w = (Normal tt, refused remove_failed [] w)).
Proof.
  split.
  - intros before item after Hloc Hok. run. unfold findIndex.
    rewrite (findIndex_from_located _ 0 _ _ _ _ Hloc). simpl.
    replace (Z.of_nat (List.length before) >=? 0) with true
      by (symmetry; apply Z.geb_le; lia).
    destruct Hloc as (-> & _ & _). rewrite splice_middle. simpl.
    rewrite Hok. now rewrite List.app_nil_r.
  - intros Hf. run. unfold findIndex. rewrite (findIndex_from_none _ _ _ Hf).
    simpl. now rewrite List.app_nil_r.
Qed.

Lemma removeProduct_spec_witness :
  removeProduct 1 (shop 5) (holding [in_cart 1 2]) =
  (Normal tt, committed [] [] (holding [in_cart 1 2])) /\
  removeProduct 99 (shop 5) empty_world =
  (Normal tt, refused remove_failed [] empty_world).
Proof.
  split.
  - destruct (removeProduct_spec 1 (shop 5) (holding [in_cart 1 2])) as [Hpresent _].
    apply (Hpresent [] (in_cart 1 2) []); [|reflexivity].
    repeat split. intros q [].
  - destruct (removeProduct_spec 99 (shop 5) empty_world) as [_ Habsent].
    apply Habsent. reflexivity.
Defined.

Lemma updateProductAmount_returns_early (productId amount : Z) (e : Env) (w : World) :
  amount <= 0 ->
  updateProductAmount productId amount e w = (Normal tt, w).
Proof.
  intros Hle. run.
  replace (amount <=? 0) with true by (symmetry; apply Z.leb_le; lia).
  reflexivity.
Qed.

Lemma updateProductAmount_above_stock (productId amount : Z) (e : Env) (w : World)
  (stockAmount : Z) :
  0 < amount ->
  stock_amount e productId = Some stockAmount ->
  amount > stockAmount ->
  updateProductAmount productId amount e w =
  (Normal tt, refused out_of_stock [GetStock productId] w).
Proof.
  intros Hpos Hs Hgt. run.
  replace (amount <=? 0) with false by (symmetry; apply Z.leb_gt; lia).
  rewrite Hs. simpl. now rewrite gtb_true.
Qed.

(** C7. [updateProductAmount] with an amount of zero or less returns at
    once: whatever the services would answer, the world is left exactly
    as it was, with no notification shown and no request sent. *)
Theorem updateProductAmount_nonpositive (productId amount : Z) (e : Env) (w : World) :
  amount <= 0 ->
  updateProductAmount productId amount e w = (Normal tt, w).
Proof.
  apply updateProductAmount_returns_early.
Qed.

Lemma updateProductAmount_nonpositive_witness :
  updateProductAmount 1 0 offline (holding [in_cart 1 1]) =
  (Normal tt, holding [in_cart 1 1]).
Proof.
  apply (updateProductAmount_nonpositive 1 0 offline (holding [in_cart 1 1])). lia.
Defined.

(** The run of [updateProductAmount] past its two guards. *)
Lemma updateProductAmount_guards_passed (productId amount : Z) (e : Env) (w : World)
  (stockAmount : Z) :
  0 < amount ->
  stock_amount e productId = Some stockAmount ->
  amount <= stockAmount ->
  updateProductAmount productId amount e w =
  match find (has_id productId) (cart w) with
  | Some _ =>
      let c := assign_amount productId amount (cart w) in
      if storage_accepts e
      then (Normal tt, committed c [GetStock productId] w)
      else (Normal tt,
            mkWorld c (storage w) (toasts w ++ [update_failed])
              (requests w ++ [GetStock productId]))
  | None => (Normal tt, refused update_failed [GetStock productId] w)
  end.
Proof.
  intros Hpos Hs Hle. run.
  replace (amount <=? 0) with false by (symmetry; apply Z.leb_gt; lia).
  rewrite Hs. simpl. rewrite gtb_false by lia. simpl.
  destruct (find (has_id productId) (cart w)); simpl; auto.
  destruct (storage_accepts e); reflexivity.
Qed.

(** C5. [updateProductAmount] with a positive amount, the stock service
    answering: above the stock amount it shows the out-of-stock
    notification and changes nothing; otherwise, on an item the cart
    holds it sets that item's amount to the requested value and writes the
    cart to the store; on a product the cart does not hold it shows the
    update-failed notification and changes neither cart nor stored value. *)
Theorem updateProductAmount_spec (productId amount : Z) (e : Env) (w : World)
  (stockAmount : Z) :
  amount > 0 ->
  stock_amount e productId = Some stockAmount ->
  (amount > stockAmount ->
   updateProductAmount productId amount e w =
   (Normal tt, refused out_of_stock [GetStock productId] w)) /\
  (amount <= stockAmount ->
   forall before item after,
     located productId (cart w) before item after ->
     storage_accepts e = true ->
     let item' := set "amount" (VNum amount) item in
     updateProductAmount productId amount e w =
     (Normal tt, committed (before ++ item' :: after) [GetStock productId] w) /\
     get "amount" item' = Some (VNum amount) /\
     (forall k, k <> "amount" -> get k item' = get k item)) /\
  (amount <= stockAmount ->
   find (has_id productId) (cart w) = None ->
   updateProductAmount productId amount e w =
   (Normal tt, refused update_failed [GetStock productId] w)).
Proof.
  intros Hpos Hs. assert (Hpos' : 0 < amount) by lia.
  split; [|split].
  - intros Hgt. now apply updateProductAmount_above_stock with stockAmount.
  - intros Hle before item after Hloc Hok item'.
    rewrite (updateProductAmount_guards_passed _ _ _ _ _ Hpos' Hs Hle).
    rewrite (find_located _ _ _ _ _ Hloc), Hok. simpl.
    rewrite (assign_amount_located _ _ _ _ _ _ Hloc).
    repeat split.
    + apply get_set_same.
    + intros k Hk. now apply get_set_other.
  - intros Hle Hf.
    rewrite (updateProductAmount_guards_passed _ _ _ _ _ Hpos' Hs Hle).
    now rewrite Hf.
Qed.

Lemma updateProductAmount_spec_witness :
  updateProductAmount 1 3 (shop 10) (holding [in_cart 1 1]) =
  (Normal tt, committed [in_cart 1 3] [GetStock 1] (holding [in_cart 1 1])).
Proof.
  destruct (updateProductAmount_spec 1 3 (shop 10) (holding [in_cart 1 1]) 10)
    as (_ & Hpresent & _); [lia | reflexivity |].
  apply (Hpresent ltac:(lia) [] (in_cart 1 1) []); [|reflexivity].
  repeat split. intros q [].
Defined.

Lemma assign_amount_same (productId a : Z) (c : list Product) (item : Product) :
  find (has_id productId) c = Some item ->
  get "amount" item = Some (VNum a) ->
  assign_amount productId a c = c.
Proof.
  intros Hf Ha. destruct (find_some_located _ _ _ Hf) as (before & after & Hloc).
  rewrite (assign_amount_located _ _ _ _ _ _ Hloc).
  rewrite (set_unchanged _ _ _ Ha). now destruct Hloc as (-> & _).
Qed.

(** C8, as the specification states it, fails: after an [addProduct]
    whose write the store refused, the cart holds product 1 with amount
    1 and the key is absent; [updateProductAmount] of product 1 to amount
    1 then creates the stored value. *)
Lemma same_amount_update_writes_storage :
  let w := snd (addProduct 1 (full_store 5) empty_world) in
  let w' := snd (updateProductAmount 1 1 (shop 5) w) in
  find (has_id 1) (cart w) = Some (in_cart 1 1) /\
  get "amount" (in_cart 1 1) = Some (VNum 1) /\
  storage w = None /\
  storage w' = Some (JSON.stringify (cart_value [in_cart 1 1])) /\
  ~ (cart w' = cart w /\ storage w' = storage w).
Proof.
  repeat split; try reflexivity.
  intros [_ H]. discriminate H.
Qed.

(** C8, amended. [updateProductAmount] called with the amount the item
    already has leaves the cart as it was, whatever the stock service
    answers; it leaves the stored value as it was whenever that value is
    the serialization of the cart. *)
Theorem updateProductAmount_same_amount (productId a : Z) (e : Env) (w : World)
  (item : Product) :
  find (has_id productId) (cart w) = Some item ->
  get "amount" item = Some (VNum a) ->
  let w' := snd (updateProductAmount productId a e w) in
  cart w' = cart w /\
  (storage w = Some (JSON.stringify (cart_value (cart w))) ->
   storage w' = storage w).
Proof.
  intros Hf Ha w'. subst w'.
  destruct (Z.leb_spec a 0) as [Hle|Hpos].
  - now rewrite updateProductAmount_returns_early.
  - destruct (stock_amount e productId) as [stockAmount|] eqn:Hs.
    + destruct (Z.leb_spec a stockAmount) as [Hin|Hout].
      * rewrite (updateProductAmount_guards_passed _ _ _ _ _ Hpos Hs Hin), Hf.
        rewrite (assign_amount_same _ _ _ _ Hf Ha). simpl.
        destruct (storage_accepts e); simpl; auto.
      * rewrite (updateProductAmount_above_stock _ _ _ _ _ Hpos Hs) by lia.
        simpl. auto.
    + run. replace (a <=? 0) with false by (symmetry; apply Z.leb_gt; lia).
      rewrite Hs. simpl. auto.
Qed.

Lemma updateProductAmount_same_amount_witness :
  let w := holding [in_cart 2 1; in_cart 1 4] in
  let w' := snd (updateProductAmount 1 4 (shop 9) w) in
  cart w' = cart w /\ storage w' = storage w.
Proof.
  destruct (updateProductAmount_same_amount 1 4 (shop 9)
              (holding [in_cart 2 1; in_cart 1 4]) (in_cart 1 4))
    as [Hcart Hstorage]; [reflexivity | reflexivity |].
  split; [exact Hcart | apply Hstorage; reflexivity].
Defined.

(** C2, as the specification states it, fails: when the step that raises
    is the write to the store, the notification is shown and the stored
    value is as before, but the cart already holds the new item. *)
Lemma addProduct_storage_failure_keeps_new_cart :
  let w' := snd (addProduct 1 (full_store 5) empty_world) in
  add_fails 1 (full_store 5) empty_world StorageWrite /\
  toasts w' = [add_failed] /\
  storage w' = storage empty_world /\
  cart w' = [in_cart 1 1] /\
  ~ (cart w' = cart empty_world /\ storage w' = storage empty_world).
Proof.
  split; [|repeat split].
  - apply (storage_write_fails 1 (full_store 5) empty_world 5 0);
      try reflexivity; try lia. discriminate.
  - intros [H _]. discriminate H.
Qed.

(** C2, amended. In every run of [addProduct] in which a step raises, the
    add-failed notification is shown and the stored value is the one
    before the call; the cart is the one before the call when the step
    is the stock fetch or the catalog fetch, and the cart of the
    successful run when the step is the write to the store. *)
Theorem addProduct_failure (productId : Z) (e : Env) (w : World) (s : step) :
  add_fails productId e w s ->
  let w' := snd (addProduct productId e w) in
  fst (addProduct productId e w) = Normal tt /\
  toasts w' = toasts w ++ [add_failed] /\
  storage w' = storage w /\
  (s <> StorageWrite -> cart w' = cart w) /\
  (s = StorageWrite -> cart w' = cart (snd (addProduct productId (accepting e) w))).
Proof.
  intros Hfail w'. subst w'. destruct Hfail as [Hs | st Hs Hf Hle Hd | st a Hs Hc Hle Hd Hno].
  - run. rewrite Hs. simpl. repeat split; auto; discriminate.
  - run. rewrite Hf, Hs. simpl. rewrite gtb_false by lia. rewrite Hd. simpl.
    repeat split; auto; discriminate.
  - destruct (find (has_id productId) (cart w)) as [item|] eqn:Hf.
    + pose proof (currentAmount_found _ _ _ _ Hf Hc) as Ha.
      rewrite (addProduct_present _ _ _ _ _ _ Hf Ha Hs Hle).
      rewrite (addProduct_present productId (accepting e) _ _ _ _ Hf Ha Hs Hle).
      rewrite Hno. simpl. repeat split; auto; congruence.
    + pose proof (currentAmount_absent _ _ _ Hf Hc) as ->.
      destruct (product_data e productId) as [data|] eqn:Hdata;
        [|now destruct Hd].
      rewrite (addProduct_absent _ _ _ _ _ Hf Hs Hle Hdata).
      rewrite (addProduct_absent productId (accepting e) _ _ _ Hf Hs Hle Hdata).
      rewrite Hno. simpl. repeat split; auto; congruence.
Qed.

Lemma addProduct_failure_witness :
  let w := holding [in_cart 1 1] in
  let w' := snd (addProduct 2 offline w) in
  fst (addProduct 2 offline w) = Normal tt /\
  toasts w' = toasts w ++ [add_failed] /\
  storage w' = storage w /\
  (StockFetch <> StorageWrite -> cart w' = cart w) /\
  (StockFetch = StorageWrite -> cart w' = cart (snd (addProduct 2 (accepting offline) w))).
Proof.
  apply (addProduct_failure 2 offline (holding [in_cart 1 1]) StockFetch).
  apply stock_fetch_fails. reflexivity.
Defined.

(** ** [JSON.parse] reads back what [JSON.stringify] wrote *)

Module JSONFacts.

Import JSON.
Local Open Scope string_scope.

Lemma value_induction (P : value -> Prop) :
  P VNull ->
  (forall b, P (VBool b)) ->
  (forall n, P (VNum n)) ->
  (forall s, P (VStr s)) ->
  (forall items, every P items -> P (VArr items)) ->
  (forall props, every (fun kv => P (snd kv)) props -> P (VObj props)) ->
  forall v, P v.
Proof.
  intros Hnull Hbool Hnum Hstr Harr Hobj.
  exact (fix F (v : value) : P v :=
           match v with
           | VNull => Hnull
           | VBool b => Hbool b
           | VNum n => Hnum n
           | VStr s => Hstr s
           | VArr items =>
               Harr items
                 ((fix G (l : list value) : every P l :=
                     match l with
                     | [] => I
                     | x :: l' => conj (F x) (G l')
                     end) items)
           | VObj props =>
               Hobj props
                 ((fix G (o : list (string * value))
                     : every (fun kv => P (snd kv)) o :=
                     match o with
                     | [] => I
                     | kv :: o' => conj (F (snd kv)) (G o')
                     end) props)
           end).
Qed.

Lemma append_assoc (a b c : string) : (a ++ b) ++ c = a ++ (b ++ c).
Proof. induction a; simpl; congruence. Qed.

Lemma append_empty (a : string) : a ++ "" = a.
Proof. induction a; simpl; congruence. Qed.

Lemma length_append (a b : string) :
  String.length (a ++ b) = (String.length a + String.length b)%nat.
Proof. induction a; simpl; congruence. Qed.

(** *** Numbers *)

Lemma read_digits_written (u : uint) (k : string) :
  no_digit_ahead k ->
  read_digits (NilEmpty.string_of_uint u ++ k) = (u, k).
Proof.
  intros Hk. induction u; simpl; try (rewrite IHu; reflexivity).
  destruct k as [|c r]; simpl in *; [reflexivity|]. now rewrite Hk.
Qed.

Lemma unorm_fixed_canonical (u : uint) : unorm u = u -> canonical u = true.
Proof.
  destruct u as [|u'| | | | | | | | |]; simpl; try reflexivity.
  - discriminate.
  - destruct u' as [|u''| | | | | | | | |] eqn:E; try reflexivity;
      rewrite <- E; intros H;
      assert (Hne : u' <> Nil) by (rewrite E; discriminate);
      pose proof (nb_digits_unorm u' Hne) as Hlen;
      rewrite unorm_D0 in H; rewrite H in Hlen; simpl in Hlen; lia.
Qed.

Lemma to_uint_canonical (p : positive) : canonical (Pos.to_uint p) = true.
Proof.
  apply unorm_fixed_canonical.
  pose proof (DecimalPos.Unsigned.to_of (Pos.to_uint p)) as H.
  rewrite DecimalPos.Unsigned.of_to in H. simpl in H. now symmetry.
Qed.

Lemma canonical_head (u : uint) (k : string) :
  canonical u = true ->
  starts_with "-" (NilEmpty.string_of_uint u ++ k) = false.
Proof. destruct u; simpl; try reflexivity. discriminate. Qed.

Lemma delimited_no_digit (k : string) : delimited k -> no_digit_ahead k.
Proof.
  intros [->|H]; [exact I|].
  destruct k as [|c r]; [exact I|]. simpl in *.
  destruct H as [H|[H|H]]; apply Ascii.eqb_eq in H; subst c; reflexivity.
Qed.

Lemma delimited_no_fraction (k : string) : delimited k -> starts_fraction k = false.
Proof.
  intros [->|H]; [reflexivity|].
  destruct k as [|c r]; [reflexivity|]. simpl in *.
  destruct H as [H|[H|H]]; apply Ascii.eqb_eq in H; subst c; reflexivity.
Qed.

Lemma delimited_skip_ws (k : string) : delimited k -> skip_ws k = k.
Proof.
  intros [->|H]; [reflexivity|].
  destruct k as [|c r]; [reflexivity|]. simpl in *.
  destruct H as [H|[H|H]]; apply Ascii.eqb_eq in H; subst c; reflexivity.
Qed.

Lemma parse_number_written (n : Z) (k : string) :
  delimited k ->
  parse_number (number_to_string n ++ k) = Some (n, k).
Proof.
  intros Hk. unfold parse_number, number_to_string.
  assert (Hcanon : match Z.to_int n with
                   | Pos u | Neg u => canonical u = true
                   end).
  { destruct n; simpl; auto using to_uint_canonical. }
  pose proof (DecimalZ.of_to n) as Hn.
  destruct (Z.to_int n) as [u|u]; simpl NilEmpty.string_of_int.
  - rewrite canonical_head by assumption.
    rewrite read_digits_written by now apply delimited_no_digit.
    rewrite Hcanon, delimited_no_fraction by assumption.
    cbv [andb negb]. now rewrite Hn.
  - cbn [starts_with tail append Ascii.eqb Bool.eqb].
    rewrite read_digits_written by now apply delimited_no_digit.
    rewrite Hcanon, delimited_no_fraction by assumption.
    cbv [andb negb]. now rewrite Hn.
Qed.

(** *** Strings *)

Lemma parse_chars_escape (c : ascii) (t : string) :
  parse_chars (escape c ++ t) =
  match parse_chars t with
  | Some (s, r) => Some (String c s, r)
  | None => None
  end.
Proof. destruct c as [[] [] [] [] [] [] [] []]; reflexivity. Qed.

Lemma parse_chars_written (s k : string) :
  parse_chars (escape_all s ++ String dquote k) = Some (s, k).
Proof.
  induction s as [|c s IH]; [reflexivity|].
  simpl escape_all. rewrite append_assoc, parse_chars_escape. now rewrite IH.
Qed.

Lemma quote_append (s k : string) :
  quote s ++ k = String dquote (escape_all s ++ String dquote k).
Proof. unfold quote. simpl. now rewrite append_assoc. Qed.

Lemma parse_string_written (s k : string) :
  parse_string (skip_ws (quote s ++ k)) = Some (s, k).
Proof. rewrite quote_append. simpl. apply parse_chars_written. Qed.

(** *** One step of each reader *)

Lemma parse_value_number (fuel : nat) (n : Z) (k : string) :
  delimited k ->
  parse_value (S fuel) (number_to_string n ++ k) = Some (VNum n, k).
Proof.
  intros Hk.
  assert (Hstep : parse_value (S fuel) (number_to_string n ++ k) =
                  match parse_number (number_to_string n ++ k) with
                  | Some (m, r) => Some (VNum m, r)
                  | None => None
                  end).
  { unfold number_to_string.
    assert (Hcanon : match Z.to_int n with
                     | Pos u | Neg u => canonical u = true
                     end).
    { destruct n; simpl; auto using to_uint_canonical. }
    destruct (Z.to_int n) as [u|u]; simpl NilEmpty.string_of_int.
    - destruct u; try discriminate Hcanon; reflexivity.
    - reflexivity. }
  rewrite Hstep. now rewrite parse_number_written.
Qed.

Lemma parse_value_string (fuel : nat) (s k : string) :
  parse_value (S fuel) (quote s ++ k) = Some (VStr s, k).
Proof.
  rewrite quote_append.
  change (parse_value (S fuel) (String dquote (escape_all s ++ String dquote k)))
    with (match parse_chars (escape_all s ++ String dquote k) with
          | Some (t, r) => Some (VStr t, r)
          | None => None
          end).
  now rewrite parse_chars_written.
Qed.

Lemma parse_value_array (fuel : nat) (t : string) :
  starts_with "]" (skip_ws t) = false ->
  parse_value (S fuel) (String "[" t) =
  match parse_elements fuel t with
  | Some (l, r) => Some (VArr l, r)
  | None => None
  end.
Proof.
  intros H.
  change (parse_value (S fuel) (String "[" t))
    with (if starts_with "]" (skip_ws t)
          then Some (VArr [], tail (skip_ws t))
          else match parse_elements fuel t with
               | Some (l, r) => Some (VArr l, r)
               | None => None
               end).
  now rewrite H.
Qed.

Lemma parse_value_object (fuel : nat) (t : string) :
  starts_with "}" (skip_ws t) = false ->
  parse_value (S fuel) (String "{" t) =
  match parse_members fuel t with
  | Some (m, r) => Some (VObj (define_all m), r)
  | None => None
  end.
Proof.
  intros H.
  change (parse_value (S fuel) (String "{" t))
    with (if starts_with "}" (skip_ws t)
          then Some (VObj [], tail (skip_ws t))
          else match parse_members fuel t with
               | Some (m, r) => Some (VObj (define_all m), r)
               | None => None
               end).
  now rewrite H.
Qed.

(** A value's text starts with a character that is neither blank nor a
    closing bracket. *)
Lemma stringify_head (v : value) (t : string) :
  skip_ws (stringify v ++ t) = stringify v ++ t /\
  starts_with "]" (stringify v ++ t) = false /\
  starts_with "}" (stringify v ++ t) = false.
Proof.
  destruct v as [|[]|n|s|items|props]; try (repeat split; reflexivity).
  simpl stringify. unfold number_to_string.
  assert (Hcanon : match Z.to_int n with
                   | Pos u | Neg u => canonical u = true
                   end).
  { destruct n; simpl; auto using to_uint_canonical. }
  destruct (Z.to_int n) as [u|u]; simpl NilEmpty.string_of_int.
  - destruct u; try discriminate Hcanon; repeat split; reflexivity.
  - repeat split; reflexivity.
Qed.

(** *** Objects *)

Lemma set_fresh (k : string) (v : value) (o : object) :
  ~ In k (keys o) -> set k v o = (o ++ [(k, v)])%list.
Proof.
  induction o as [|[k' v'] o IH]; simpl; [reflexivity|].
  intros Hnot. destruct (String.eqb k k') eqn:E.
  - apply String.eqb_eq in E. subst. destruct Hnot. now left.
  - rewrite IH; auto.
Qed.

Lemma define_all_from (m acc : object) :
  NoDup (keys acc ++ keys m) ->
  fold_left (fun o kv => set (fst kv) (snd kv) o) m acc = (acc ++ m)%list.
Proof.
  revert acc. induction m as [|[k v] m IH]; intros acc Hnd; simpl.
  - now rewrite List.app_nil_r.
  - simpl in Hnd. rewrite set_fresh.
    + rewrite IH.
      * now rewrite <- app_assoc.
      * unfold keys in *. rewrite map_app, <- app_assoc. exact Hnd.
    + apply NoDup_remove_2 in Hnd. intros Hin. apply Hnd.
      apply in_or_app. now left.
Qed.

Lemma define_all_unique (m : object) : NoDup (keys m) -> define_all m = m.
Proof. intros H. unfold define_all. now rewrite define_all_from. Qed.

(** *** Values *)

Lemma size_positive (v : value) : (1 <= size v)%nat.
Proof. destruct v; simpl; lia. Qed.

Lemma separated_cons {A : Type} (f : A -> string) (x y : A) (l : list A) :
  separated f (x :: y :: l) = f x ++ "," ++ separated f (y :: l).
Proof. reflexivity. Qed.

Lemma delimited_bracket (k : string) : delimited (String "]" k).
Proof. right; right; left. reflexivity. Qed.

Lemma delimited_brace (k : string) : delimited (String "}" k).
Proof. right; right; right. reflexivity. Qed.

Lemma delimited_comma (k : string) : delimited (String "," k).
Proof. right; left. reflexivity. Qed.

Ltac side :=
  first [ assumption | discriminate | lia
        | apply delimited_bracket | apply delimited_brace | apply delimited_comma
        | simpl in *; lia ].

Lemma read_back (fuel : nat) :
  (forall v k,
      (size v <= fuel)%nat -> wf_value v -> delimited k ->
      parse_value fuel (stringify v ++ k) = Some (v, k)) /\
  (forall l k,
      l <> [] ->
      (list_sum (map (fun x => S (size x)) l) <= fuel)%nat ->
      every wf_value l ->
      parse_elements fuel (separated stringify l ++ String "]" k) = Some (l, k)) /\
  (forall o k,
      o <> [] ->
      (list_sum (map (fun kv => S (size (snd kv))) o) <= fuel)%nat ->
      every (fun kv => wf_value (snd kv)) o ->
      parse_members fuel (separated member o ++ String "}" k) = Some (o, k)).
Proof.
  induction fuel as [|fuel (IHv & IHl & IHo)].
  - split; [|split].
    + intros v k Hsize. pose proof (size_positive v). lia.
    + intros [|x l] k Hne Hsize; [congruence|]. simpl in Hsize. lia.
    + intros [|x o] k Hne Hsize; [congruence|]. simpl in Hsize. lia.
  - split; [|split].
    + intros v k Hsize Hwf Hk.
      destruct v as [|[]|n|s|items|props]; try reflexivity.
      * now apply parse_value_number.
      * apply parse_value_string.
      * destruct items as [|x l]; [reflexivity|].
        change (stringify (VArr (x :: l)) ++ k)
          with (String "[" ((separated stringify (x :: l) ++ "]") ++ k)).
        rewrite append_assoc. cbn [append].
        rewrite parse_value_array.
        -- rewrite IHl by side. reflexivity.
        -- destruct l as [|y l].
           ++ simpl separated.
              destruct (stringify_head x (String "]" k)) as (-> & -> & _). reflexivity.
           ++ rewrite separated_cons, append_assoc.
              destruct (stringify_head x
                          (("," ++ separated stringify (y :: l)) ++ String "]" k))
                as (-> & -> & _). reflexivity.
      * destruct props as [|kv o]; [reflexivity|].
        change (stringify (VObj (kv :: o)) ++ k)
          with (String "{" ((separated member (kv :: o) ++ "}") ++ k)).
        rewrite append_assoc. cbn [append]. destruct Hwf as [Hnd Hwf].
        rewrite parse_value_object.
        -- rewrite IHo by side. now rewrite define_all_unique.
        -- destruct o as [|kv' o]; [simpl separated|rewrite separated_cons];
             unfold member at 1; rewrite !append_assoc, quote_append; reflexivity.
    + intros [|x l] k Hne Hsize Hwf; [congruence|]. destruct Hwf as [Hx Hl].
      change (parse_elements (S fuel) (separated stringify (x :: l) ++ String "]" k))
        with (match parse_value fuel (separated stringify (x :: l) ++ String "]" k) with
              | Some (x, r) =>
                  let r := skip_ws r in
                  if starts_with "," r then
                    match parse_elements fuel (tail r) with
                    | Some (l, r') => Some (x :: l, r')
                    | None => None
                    end
                  else if starts_with "]" r then Some ([x], tail r)
                  else None
              | None => None
              end).
      simpl in Hsize. destruct l as [|y l].
      * simpl separated. rewrite IHv by side. reflexivity.
      * rewrite separated_cons, !append_assoc. cbn [append].
        rewrite IHv by side.
        cbn [skip_ws is_ws starts_with tail Ascii.eqb Bool.eqb orb].
        rewrite IHl by side. reflexivity.
    + intros [|[k0 x] o] k Hne Hsize Hwf; [congruence|]. destruct Hwf as [Hx Ho].
      change (parse_members (S fuel) (separated member ((k0, x) :: o) ++ String "}" k))
        with (match parse_string
                      (skip_ws (separated member ((k0, x) :: o) ++ String "}" k)) with
              | Some (k, r) =>
                  let r := skip_ws r in
                  if starts_with ":" r then
                    match parse_value fuel (tail r) with
                    | Some (x, r') =>
                        let r' := skip_ws r' in
                        if starts_with "," r' then
                          match parse_members fuel (tail r') with
                          | Some (m, r'') => Some ((k, x) :: m, r'')
                          | None => None
                          end
                        else if starts_with "}" r' then Some ([(k, x)], tail r')
                        else None
                    | None => None
                    end
                  else None
              | None => None
              end).
      simpl in Hsize, Hx. destruct o as [|kv o].
      * simpl separated. unfold member. simpl fst. simpl snd.
        rewrite !append_assoc, parse_string_written.
        cbn [skip_ws is_ws starts_with tail append Ascii.eqb Bool.eqb orb].
        rewrite IHv by side. reflexivity.
      * rewrite separated_cons. unfold member at 1. simpl fst. simpl snd.
        rewrite !append_assoc, parse_string_written.
        cbn [skip_ws is_ws starts_with tail append Ascii.eqb Bool.eqb orb].
        rewrite IHv by side.
        cbn [skip_ws is_ws starts_with tail Ascii.eqb Bool.eqb orb].
        rewrite IHo by side. reflexivity.
Qed.

(** *** The whole text *)

Lemma separated_length {A : Type} (f : A -> string) (g : A -> nat) (l : list A) :
  every (fun x => (g x <= String.length (f x))%nat) l ->
  (list_sum (map (fun x => S (g x)) l) <= S (String.length (separated f l)))%nat.
Proof.
  induction l as [|x l IH]; simpl; [lia|].
  intros [Hx Hl]. specialize (IH Hl). destruct l as [|y l].
  - simpl. lia.
  - rewrite !length_append. simpl String.length. simpl in IH. simpl. lia.
Qed.

Lemma every_impl {A : Type} (P Q : A -> Prop) (l : list A) :
  (forall x, P x -> Q x) -> every P l -> every Q l.
Proof.
  intros H. induction l as [|x l IH]; simpl; [auto|].
  intros [Hx Hl]. split; auto.
Qed.

Lemma number_to_string_length (n : Z) : (1 <= String.length (number_to_string n))%nat.
Proof.
  unfold number_to_string.
  assert (Hcanon : match Z.to_int n with
                   | Pos u | Neg u => canonical u = true
                   end).
  { destruct n; simpl; auto using to_uint_canonical. }
  destruct (Z.to_int n) as [u|u]; simpl.
  - destruct u; try discriminate Hcanon; simpl; lia.
  - lia.
Qed.

Lemma size_le_length (v : value) : (size v <= String.length (stringify v))%nat.
Proof.
  induction v as [|b|n|s|items IH|props IH] using value_induction.
  - simpl. lia.
  - destruct b; simpl; lia.
  - simpl. apply number_to_string_length.
  - simpl. lia.
  - change (stringify (VArr items)) with (String "[" (separated stringify items ++ "]")).
    simpl size. simpl String.length. rewrite length_append. simpl String.length.
    pose proof (separated_length stringify size items IH). lia.
  - change (stringify (VObj props)) with (String "{" (separated member props ++ "}")).
    simpl size. simpl String.length. rewrite length_append. simpl String.length.
    assert (H : every (fun kv => (size (snd kv) <= String.length (member kv))%nat) props).
    { revert IH. apply every_impl. intros [k x] Hx. unfold member.
      rewrite !length_append. simpl in *. lia. }
    pose proof (separated_length member (fun kv => size (snd kv)) props H). lia.
Qed.

Lemma parse_stringify (v : value) : wf_value v -> parse (stringify v) = Some v.
Proof.
  intros Hwf. unfold parse.
  pose proof (proj1 (read_back (S (String.length (stringify v)))) v "") as H.
  rewrite append_empty in H. rewrite H; auto.
  - pose proof (size_le_length v). lia.
  - now left.
Qed.

End JSONFacts.

(** ** The cart comes back from the store *)

Lemma as_objects_map (c : list Product) : as_objects (map VObj c) = Some c.
Proof. induction c as [|p c IH]; simpl; [reflexivity|]. now rewrite IH. Qed.

Lemma initial_cart_stored (c : list Product) :
  wf_value (cart_value c) ->
  initial_cart (Some (JSON.stringify (cart_value c))) = Some c.
Proof.
  intros Hwf.
  assert (Hstep : forall text,
             text <> EmptyString ->
             initial_cart (Some text) =
             match JSON.parse text with
             | Some v => as_cart v
             | None => None
             end).
  { intros [|a text] Hne; [congruence|reflexivity]. }
  rewrite Hstep by discriminate.
  rewrite JSONFacts.parse_stringify by assumption.
  apply as_objects_map.
Qed.

(** C9. Writing a cart to the store as the operations do, and reading
    the store as the provider does when it starts, gives the cart back:
    the same items in the same order, each with the same fields. *)
Theorem cart_round_trip (c : list Product) (e : Env) (w : World) :
  wf_value (cart_value c) ->
  storage_accepts e = true ->
  let w' := snd (localStorage_setItem (JSON.stringify (cart_value c)) e w) in
  storage w' = Some (JSON.stringify (cart_value c)) /\
  initial_cart (storage w') = Some c.
Proof.
  intros Hwf Hok. unfold localStorage_setItem. rewrite Hok. simpl.
  split; [reflexivity|]. now apply initial_cart_stored.
Qed.

Lemma cart_round_trip_witness :
  let c := [in_cart 1 2; in_cart 3 1] in
  let w' := snd (localStorage_setItem (JSON.stringify (cart_value c)) (shop 5) empty_world) in
  storage w' = Some (JSON.stringify (cart_value c)) /\
  initial_cart (storage w') = Some c.
Proof.
  apply (cart_round_trip [in_cart 1 2; in_cart 3 1] (shop 5) empty_world).
  - simpl. repeat split; repeat constructor; simpl; intuition discriminate.
  - reflexivity.
Defined.

(** ** What a call can do to the cart and to the store *)

Lemma addProduct_effect (productId : Z) (e : Env) (w : World) :
  let w' := snd (addProduct productId e w) in
  (cart w' = cart w /\ storage w' = storage w) \/
  ((storage w' = storage w \/
    storage w' = Some (JSON.stringify (cart_value (cart w')))) /\
   ((exists item a,
        find (has_id productId) (cart w) = Some item /\
        get "amount" item = Some (VNum a) /\
        cart w' = assign_amount productId (a + 1) (cart w)) \/
    (exists data,
        find (has_id productId) (cart w) = None /\
        product_data e productId = Some data /\
        cart w' = cart w ++ [set "amount" (VNum 1) data]))).
Proof.
  run.
  destruct (stock_amount e productId) as [stockAmount|]; simpl; auto.
  destruct (find (has_id productId) (cart w)) as [item|] eqn:Hf; simpl.
  - destruct (get "amount" item) as [[| |a| | |]|] eqn:Ha; simpl; auto.
    destruct (a + 1 >? stockAmount); simpl; auto.
    destruct (storage_accepts e); simpl; right; split; eauto 8.
  - destruct (1 >? stockAmount); simpl; auto.
    destruct (product_data e productId) as [data|] eqn:Hd; simpl; auto.
    destruct (storage_accepts e); simpl; right; split; eauto 8.
Qed.

Lemma removeProduct_effect (productId : Z) (e : Env) (w : World) :
  let w' := snd (removeProduct productId e w) in
  (cart w' = cart w /\ storage w' = storage w) \/
  ((storage w' = storage w \/
    storage w' = Some (JSON.stringify (cart_value (cart w')))) /\
   exists before item after,
     cart w = before ++ item :: after /\ cart w' = before ++ after).
Proof.
  destruct (find (has_id productId) (cart w)) as [item|] eqn:Hf.
  - destruct (find_some_located _ _ _ Hf) as (before & after & Hloc).
    right. run. unfold findIndex.
    rewrite (findIndex_from_located _ 0 _ _ _ _ Hloc). simpl.
    replace (Z.of_nat (List.length before) >=? 0) with true
      by (symmetry; apply Z.geb_le; lia).
    destruct Hloc as (Hc & _ & _). rewrite Hc, splice_middle. simpl.
    destruct (storage_accepts e); simpl; split; eauto.
  - left. run. unfold findIndex. rewrite (findIndex_from_none _ _ _ Hf).
    simpl. auto.
Qed.

Lemma updateProductAmount_effect (productId amount : Z) (e : Env) (w : World) :
  let w' := snd (updateProductAmount productId amount e w) in
  (cart w' = cart w /\ storage w' = storage w) \/
  ((storage w' = storage w \/
    storage w' = Some (JSON.stringify (cart_value (cart w')))) /\
   1 <= amount /\
   cart w' = assign_amount productId amount (cart w)).
Proof.
  run. destruct (Z.leb_spec amount 0); simpl; auto.
  destruct (stock_amount e productId) as [stockAmount|]; simpl; auto.
  destruct (amount >? stockAmount); simpl; auto.
  destruct (find (has_id productId) (cart w)); simpl; auto.
  destruct (storage_accepts e); simpl; right; (split; [auto|]); split; auto; lia.
Qed.

(** ** The invariant of the cart *)

Lemma in_keys_set (x k : string) (v : value) (o : object) :
  In x (keys (set k v o)) -> x = k \/ In x (keys o).
Proof.
  induction o as [|[k' v'] o IH]; simpl.
  - intros [<-|[]]. now left.
  - destruct (String.eqb k k'); simpl; intuition.
Qed.

Lemma nodup_keys_set (k : string) (v : value) (o : object) :
  NoDup (keys o) -> NoDup (keys (set k v o)).
Proof.
  induction o as [|[k' v'] o IH]; simpl; intros Hnd.
  - repeat constructor. intros [].
  - destruct (String.eqb k k') eqn:E; simpl; [exact Hnd|].
    inversion Hnd as [|? ? Hnot Hnd']; subst. constructor; auto.
    intros Hin. apply in_keys_set in Hin as [->|Hin]; auto.
    now rewrite String.eqb_refl in E.
Qed.

Lemma every_set (P : value -> Prop) (k : string) (v : value) (o : object) :
  P v -> every (fun kv => P (snd kv)) o -> every (fun kv => P (snd kv)) (set k v o).
Proof.
  intros Hv. induction o as [|[k' v'] o IH]; simpl.
  - auto.
  - intros [Hx Ho]. destruct (String.eqb k k'); simpl; auto.
Qed.

Lemma wf_set_number (k : string) (n : Z) (o : object) :
  wf_value (VObj o) -> wf_value (VObj (set k (VNum n) o)).
Proof.
  intros [Hnd Hall]. split.
  - now apply nodup_keys_set.
  - apply (every_set wf_value); [exact I|assumption].
Qed.

Lemma item_ok_set_amount (a : Z) (item : object) :
  (exists n, get "id" item = Some (VNum n)) ->
  wf_value (VObj item) ->
  1 <= a ->
  item_ok (set "amount" (VNum a) item).
Proof.
  intros [n Hid] Hwf Ha. split; [|split].
  - exists n. rewrite get_set_other; [assumption|discriminate].
  - exists a. split; [apply get_set_same|assumption].
  - now apply wf_set_number.
Qed.

Lemma ids_assign_amount (productId a : Z) (c : list Product) :
  map (get "id") (assign_amount productId a c) = map (get "id") c.
Proof.
  induction c as [|p c IH]; simpl; [reflexivity|].
  destruct (has_id productId p); simpl.
  - rewrite get_set_other; [reflexivity|discriminate].
  - now rewrite IH.
Qed.

Lemma cart_ok_assign_amount (productId a : Z) (c : list Product) :
  1 <= a -> cart_ok c -> cart_ok (assign_amount productId a c).
Proof.
  intros Ha [Hall Hids]. split.
  - clear Hids. induction Hall as [|p c Hp Hall IH]; simpl; [constructor|].
    destruct (has_id productId p); constructor; auto.
    destruct Hp as (Hid & _ & Hwf). now apply item_ok_set_amount.
  - unfold ids_unique. now rewrite ids_assign_amount.
Qed.

Lemma nodup_snoc {A : Type} (l : list A) (x : A) :
  NoDup l -> ~ In x l -> NoDup (l ++ [x]).
Proof.
  induction 1 as [|y l Hy Hnd IH]; simpl; intros Hx.
  - repeat constructor. intros [].
  - constructor.
    + intros Hin. apply in_app_or in Hin as [Hin|[<-|[]]]; auto.
    + apply IH. auto.
Qed.

Lemma cart_ok_append (productId : Z) (data : object) (c : list Product) :
  cart_ok c ->
  find (has_id productId) c = None ->
  get "id" data = Some (VNum productId) ->
  wf_value (VObj data) ->
  cart_ok (c ++ [set "amount" (VNum 1) data]).
Proof.
  intros [Hall Hids] Hf Hid Hwf. split.
  - apply Forall_app. split; [assumption|]. constructor; [|constructor].
    apply item_ok_set_amount; eauto. lia.
  - unfold ids_unique. rewrite map_app. simpl.
    apply nodup_snoc; [assumption|].
    rewrite get_set_other by discriminate. rewrite Hid.
    intros Hin. apply in_map_iff in Hin as (q & Hq & Hin).
    pose proof (find_none _ _ Hf q Hin) as Hno.
    unfold has_id in Hno. rewrite Hq, Z.eqb_refl in Hno. discriminate.
Qed.

Lemma cart_ok_remove (before after : list Product) (item : Product) :
  cart_ok (before ++ item :: after) -> cart_ok (before ++ after).
Proof.
  intros [Hall Hids]. split.
  - apply Forall_app in Hall as [Hb Ha]. apply Forall_app. split; [assumption|].
    now inversion Ha.
  - unfold ids_unique in *. rewrite map_app in *. simpl in Hids.
    now apply NoDup_remove_1 in Hids.
Qed.

Lemma cart_ok_wf (c : list Product) : cart_ok c -> wf_value (cart_value c).
Proof.
  intros [Hall _]. simpl. induction Hall as [|p c Hp Hall IH]; simpl; [exact I|].
  split; [apply Hp|exact IH].
Qed.

Lemma cart_ok_nil : cart_ok [].
Proof. split; constructor. Qed.

(** The store holds nothing or the text of a cart in order: what
    [world_ok] says of the store, when the cart has just been written. *)
Lemma world_ok_step (w w' : World) :
  world_ok w ->
  cart_ok (cart w') ->
  storage w' = storage w \/
  storage w' = Some (JSON.stringify (cart_value (cart w'))) ->
  world_ok w'.
Proof.
  intros [_ Hs] Hc [Heq|Heq]; split; auto; rewrite Heq; eauto.
Qed.

Lemma world_ok_same (w w' : World) :
  world_ok w -> cart w' = cart w -> storage w' = storage w -> world_ok w'.
Proof.
  intros [Hc Hs] Hcart Hstorage. unfold world_ok. now rewrite Hcart, Hstorage.
Qed.

Lemma reachable_ok (w : World) : reachable w -> world_ok w.
Proof.
  induction 1 as [|w e productId _ IH Hcat|w e productId _ IH
                  |w e productId amount _ IH|w c _ IH Hinit].
  - split; [apply cart_ok_nil|exact I].
  - destruct (addProduct_effect productId e w)
      as [[Hc Hs]|[Hs [(item & a & Hf & Ha & Hc)|(data & Hf & Hd & Hc)]]].
    + now apply (world_ok_same w).
    + apply (world_ok_step w); auto. rewrite Hc.
      apply cart_ok_assign_amount; [|apply IH].
      destruct IH as [[Hall _] _]. rewrite Forall_forall in Hall.
      apply find_some in Hf as [Hin _].
      destruct (Hall item Hin) as (_ & (a' & Ha' & Hpos) & _).
      rewrite Ha in Ha'. injection Ha' as <-. lia.
    + apply (world_ok_step w); auto. rewrite Hc.
      destruct (Hcat data Hd) as [Hid Hwf].
      apply (cart_ok_append productId); auto. apply IH.
  - destruct (removeProduct_effect productId e w)
      as [[Hc Hs]|[Hs (before & item & after & Hw & Hc)]].
    + now apply (world_ok_same w).
    + apply (world_ok_step w); auto. rewrite Hc.
      apply (cart_ok_remove before after item). rewrite <- Hw. apply IH.
  - destruct (updateProductAmount_effect productId amount e w)
      as [[Hc Hs]|[Hs [Hpos Hc]]].
    + now apply (world_ok_same w).
    + apply (world_ok_step w); auto. rewrite Hc.
      apply cart_ok_assign_amount; [assumption|apply IH].
  - destruct IH as [Hc Hs]. split; simpl; [|exact Hs].
    destruct (storage w) as [text|].
    + destruct Hs as (c0 & -> & Hc0).
      rewrite (initial_cart_stored c0 (cart_ok_wf c0 Hc0)) in Hinit.
      now injection Hinit as <-.
    + simpl in Hinit. injection Hinit as <-. apply cart_ok_nil.
Qed.

(** C1. In every world the provider can reach from its start, by any
    sequence of [addProduct], [removeProduct] and [updateProductAmount]
    calls and of reloads of the cart from the store, every item of the
    cart has an amount of at least one and no two items have the same
    id. *)
Theorem cart_invariant (w : World) :
  reachable w ->
  amounts_positive (cart w) /\ ids_unique (cart w).
Proof.
  intros Hr. destruct (reachable_ok w Hr) as [[Hall Hids] _]. split; [|exact Hids].
  intros item Hin. rewrite Forall_forall in Hall.
  now destruct (Hall item Hin) as (_ & Ha & _).
Qed.

(** No exception leaves an operation, and from a world the provider
    can reach no operation leaves the typed fragment. *)
Lemma removeProduct_completes (productId : Z) (e : Env) (w : World) :
  fst (removeProduct productId e w) = Normal tt.
Proof.
  run. destruct (findIndex (has_id productId) (cart w) >=? 0); simpl; auto.
  destruct (storage_accepts e); reflexivity.
Qed.

Lemma updateProductAmount_completes (productId amount : Z) (e : Env) (w : World) :
  fst (updateProductAmount productId amount e w) = Normal tt.
Proof.
  run. destruct (amount <=? 0); simpl; auto.
  destruct (stock_amount e productId) as [stockAmount|]; simpl; auto.
  destruct (amount >? stockAmount); simpl; auto.
  destruct (find (has_id productId) (cart w)); simpl; auto.
  destruct (storage_accepts e); reflexivity.
Qed.

Lemma addProduct_completes (productId : Z) (e : Env) (w : World) :
  reachable w ->
  fst (addProduct productId e w) = Normal tt.
Proof.
  intros Hr. destruct (reachable_ok w Hr) as [[Hall _] _].
  rewrite Forall_forall in Hall. run.
  destruct (stock_amount e productId) as [stockAmount|]; simpl; auto.
  destruct (find (has_id productId) (cart w)) as [item|] eqn:Hf; simpl.
  - apply find_some in Hf as [Hin _].
    destruct (Hall item Hin) as (_ & (a & -> & _) & _). simpl.
    destruct (a + 1 >? stockAmount); simpl; auto.
    destruct (storage_accepts e); reflexivity.
  - destruct (1 >? stockAmount); simpl; auto.
    destruct (product_data e productId); simpl; auto.
    destruct (storage_accepts e); reflexivity.
Qed.

Lemma shop_serves (stock productId : Z) : catalog_serves (shop stock) productId.
Proof.
  intros data [= <-]. split; [reflexivity|].
  simpl. repeat split; repeat constructor; simpl; intuition discriminate.
Qed.

Lemma cart_invariant_witness :
  amounts_positive (cart session) /\ ids_unique (cart session).
Proof.
  apply (cart_invariant session).
  unfold session. apply reach_mount; [|reflexivity].
  apply reach_remove, reach_update.
  repeat (apply reach_add; [|apply shop_serves]).
  apply reach_start.
Defined.

(** ** Each operation, case by case *)

Lemma addProduct_cases (productId : Z) (e : Env) (w : World) :
  addProduct productId e w =
  match stock_amount e productId with
  | None => (Normal tt, refused add_failed [GetStock productId] w)
  | Some stockAmount =>
      match find (has_id productId) (cart w) with
      | Some item =>
          match get "amount" item with
          | Some (VNum a) =>
              if a + 1 >? stockAmount
              then (Normal tt, refused out_of_stock [GetStock productId] w)
              else
                let c := assign_amount productId (a + 1) (cart w) in
                if storage_accepts e
                then (Normal tt, committed c [GetStock productId] w)
                else (Normal tt, unsaved c add_failed [GetStock productId] w)
          | _ => (IllTyped, sent (GetStock productId) w)
          end
      | None =>
          if 1 >? stockAmount
          then (Normal tt, refused out_of_stock [GetStock productId] w)
          else
            match product_data e productId with
            | Some data =>
                let c := cart w ++ [set "amount" (VNum 1) data] in
                if storage_accepts e
                then (Normal tt,
                      committed c [GetStock productId; GetProduct productId] w)
                else (Normal tt,
                      unsaved c add_failed [GetStock productId; GetProduct productId] w)
            | None =>
                (Normal tt,
                 refused add_failed [GetStock productId; GetProduct productId] w)
            end
      end
  end.
Proof.
  run. unfold unsaved.
  destruct (stock_amount e productId) as [stockAmount|]; simpl; auto.
  destruct (find (has_id productId) (cart w)) as [item|]; simpl.
  - destruct (get "amount" item) as [[| |a| | |]|]; simpl; auto.
    destruct (a + 1 >? stockAmount); simpl; auto.
    destruct (storage_accepts e); reflexivity.
  - destruct (1 >? stockAmount); simpl; auto.
    destruct (product_data e productId); simpl.
    + rewrite <- app_assoc. destruct (storage_accepts e); reflexivity.
    + now rewrite <- app_assoc.
Qed.

Lemma removeProduct_located (productId : Z) (e : Env) (w : World)
  (before after : list Product) (item : Product) :
  located productId (cart w) before item after ->
  removeProduct productId e w =
  if storage_accepts e
  then (Normal tt, committed (before ++ after) [] w)
  else (Normal tt, unsaved (before ++ after) remove_failed [] w).
Proof.
  intros Hloc. run. unfold unsaved, findIndex.
  rewrite (findIndex_from_located _ 0 _ _ _ _ Hloc). simpl.
  replace (Z.of_nat (List.length before) >=? 0) with true
    by (symmetry; apply Z.geb_le; lia).
  destruct Hloc as (-> & _ & _). rewrite splice_middle. simpl.
  rewrite List.app_nil_r. destruct (storage_accepts e); reflexivity.
Qed.

Lemma removeProduct_missing (productId : Z) (e : Env) (w : World) :
  find (has_id productId) (cart w) = None ->
  removeProduct productId e w = (Normal tt, refused remove_failed [] w).
Proof.
  intros Hf. run. unfold findIndex. rewrite (findIndex_from_none _ _ _ Hf).
  simpl. now rewrite List.app_nil_r.
Qed.

Lemma updateProductAmount_cases (productId amount : Z) (e : Env) (w : World) :
  updateProductAmount productId amount e w =
  if amount <=? 0 then (Normal tt, w)
  else
    match stock_amount e productId with
    | None => (Normal tt, refused update_failed [GetStock productId] w)
    | Some stockAmount =>
        if amount >? stockAmount
        then (Normal tt, refused out_of_stock [GetStock productId] w)
        else
          match find (has_id productId) (cart w) with
          | Some _ =>
              let c := assign_amount productId amount (cart w) in
              if storage_accepts e
              then (Normal tt, committed c [GetStock productId] w)
              else (Normal tt, unsaved c update_failed [GetStock productId] w)
          | None => (Normal tt, refused update_failed [GetStock productId] w)
          end
    end.
Proof.
  run. unfold unsaved. destruct (amount <=? 0); simpl; auto.
  destruct (stock_amount e productId) as [stockAmount|]; simpl; auto.
  destruct (amount >? stockAmount); simpl; auto.
  destruct (find (has_id productId) (cart w)); simpl; auto.
  destruct (storage_accepts e); reflexivity.
Qed.

(** Every branch of a case analysis, its tests recorded. *)
Ltac branches :=
  repeat match goal with
         | |- context [match ?x with _ => _ end] =>
             match x with
             | context [match _ with _ => _ end] => fail 1
             | _ => destruct x eqn:?
             end
         end.

(** ** What the writes of a property keep of a cart *)

Lemma assign_amount_length (productId a : Z) (c : list Product) :
  List.length (assign_amount productId a c) = List.length c.
Proof.
  induction c as [|p c IH]; simpl; [reflexivity|].
  destruct (has_id productId p); simpl; congruence.
Qed.

Lemma assign_amount_fields (productId a : Z) (k : string) (c : list Product) :
  k <> "amount" ->
  map (get k) (assign_amount productId a c) = map (get k) c.
Proof.
  intros Hk. induction c as [|p c IH]; simpl; [reflexivity|].
  destruct (has_id productId p); simpl.
  - now rewrite get_set_other.
  - now rewrite IH.
Qed.

Lemma assign_amount_others (productId a : Z) (c : list Product) (i : nat)
  (item : Product) :
  nth_error c i = Some item ->
  has_id productId item = false ->
  nth_error (assign_amount productId a c) i = Some item.
Proof.
  revert i. induction c as [|p c IH]; intros [|i]; simpl; try discriminate.
  - intros [= ->] Hno. now rewrite Hno.
  - intros Hi Hno. destruct (has_id productId p); simpl; auto.
Qed.

Lemma has_id_true (productId : Z) (p : Product) :
  has_id productId p = true <-> get "id" p = Some (VNum productId).
Proof.
  unfold has_id. destruct (get "id" p) as [[| |n| | |]|]; split;
    try discriminate; try (intros [= ->]; apply Z.eqb_refl).
  intros H. apply Z.eqb_eq in H. now subst.
Qed.

Lemma find_none_all {A : Type} (f : A -> bool) (l : list A) :
  (forall x, In x l -> f x = false) -> find f l = None.
Proof.
  induction l as [|x l IH]; simpl; intros H; [reflexivity|].
  rewrite (H x) by now left. apply IH. intros; apply H; now right.
Qed.

(** ** Further properties of the operations *)

(** X1. No exception leaves an operation: [removeProduct] and
    [updateProductAmount] always complete, and [addProduct] never ends
    with an exception in flight; every exception raised inside is caught
    by the operation's own [catch] block. *)
Theorem no_exception_escapes (productId amount : Z) (e : Env) (w : World) :
  fst (addProduct productId e w) <> Thrown /\
  fst (removeProduct productId e w) = Normal tt /\
  fst (updateProductAmount productId amount e w) = Normal tt.
Proof.
  split; [|split].
  - rewrite addProduct_cases. branches; simpl; discriminate.
  - apply removeProduct_completes.
  - apply updateProductAmount_completes.
Qed.

(** X2. A call shows at most one notification, and a call that shows one
    leaves the stored value as it was. *)
Theorem notification_leaves_store (productId amount : Z) (e : Env) (w : World) :
  let quiet_or_unwritten (w' : World) :=
    toasts w' = toasts w \/
    exists message, toasts w' = toasts w ++ [message] /\ storage w' = storage w in
  quiet_or_unwritten (snd (addProduct productId e w)) /\
  quiet_or_unwritten (snd (removeProduct productId e w)) /\
  quiet_or_unwritten (snd (updateProductAmount productId amount e w)).
Proof.
  intros quiet_or_unwritten. subst quiet_or_unwritten. split; [|split].
  - rewrite addProduct_cases. branches; simpl; eauto.
  - destruct (find (has_id productId) (cart w)) as [item|] eqn:Hf.
    + destruct (find_some_located _ _ _ Hf) as (before & after & Hloc).
      rewrite (removeProduct_located _ _ _ _ _ _ Hloc).
      destruct (storage_accepts e); simpl; eauto.
    + rewrite (removeProduct_missing _ _ _ Hf). simpl. eauto.
  - rewrite updateProductAmount_cases. branches; simpl; eauto.
Qed.

(** X3. As long as the store takes the write, a call keeps the store in
    agreement with the memory: if the stored value was the text of the
    cart before the call (or nothing was stored and the cart was empty),
    it is so after the call, for each of the three operations. *)
Theorem accepted_writes_keep_in_sync (productId amount : Z) (e : Env) (w : World) :
  storage_accepts e = true ->
  in_sync w ->
  in_sync (snd (addProduct productId e w)) /\
  in_sync (snd (removeProduct productId e w)) /\
  in_sync (snd (updateProductAmount productId amount e w)).
Proof.
  intros Hok Hsync. split; [|split].
  - rewrite addProduct_cases, Hok. branches; simpl; auto; now left.
  - destruct (find (has_id productId) (cart w)) as [item|] eqn:Hf.
    + destruct (find_some_located _ _ _ Hf) as (before & after & Hloc).
      rewrite (removeProduct_located _ _ _ _ _ _ Hloc), Hok. now left.
    + now rewrite (removeProduct_missing _ _ _ Hf).
  - rewrite updateProductAmount_cases, Hok. branches; simpl; auto; now left.
Qed.

Lemma accepted_writes_keep_in_sync_witness :
  let w := holding [in_cart 1 1] in
  in_sync (snd (addProduct 1 (shop 5) w)) /\
  in_sync (snd (removeProduct 1 (shop 5) w)) /\
  in_sync (snd (updateProductAmount 1 3 (shop 5) w)).
Proof.
  apply (accepted_writes_keep_in_sync 1 3 (shop 5) (holding [in_cart 1 1]));
    [reflexivity | left; reflexivity].
Defined.

(** X4. [updateProductAmount] never adds, removes or moves an item: the
    cart keeps its length, every field other than [amount] keeps its
    value in every item, and an item of another id stays what and where
    it was. *)
Theorem updateProductAmount_keeps_items (productId amount : Z) (e : Env) (w : World) :
  let w' := snd (updateProductAmount productId amount e w) in
  List.length (cart w') = List.length (cart w) /\
  (forall k, k <> "amount" -> map (get k) (cart w') = map (get k) (cart w)) /\
  (forall i item,
      nth_error (cart w) i = Some item ->
      has_id productId item = false ->
      nth_error (cart w') i = Some item).
Proof.
  intros w'. subst w'. rewrite updateProductAmount_cases.
  branches; simpl; repeat split; auto;
    auto using assign_amount_length, assign_amount_fields, assign_amount_others.
Qed.

(** X5. [addProduct] never removes or moves an item and adds at most
    one, at the end: every field other than [amount] keeps its value in
    every item the cart had, and an item of another id stays what and
    where it was. *)
Theorem addProduct_keeps_items (productId : Z) (e : Env) (w : World) :
  let w' := snd (addProduct productId e w) in
  exists added,
    (List.length added <= 1)%nat /\
    List.length (cart w') = (List.length (cart w) + List.length added)%nat /\
    (forall k, k <> "amount" ->
               map (get k) (cart w') = map (get k) (cart w) ++ map (get k) added) /\
    (forall i item,
        nth_error (cart w) i = Some item ->
        has_id productId item = false ->
        nth_error (cart w') i = Some item).
Proof.
  intros w'. subst w'. rewrite addProduct_cases.
  assert (Hsame : forall c : list Product,
             exists added : list Product,
               (List.length added <= 1)%nat /\
               List.length c = (List.length c + List.length added)%nat /\
               (forall k, k <> "amount" ->
                          map (get k) c = map (get k) c ++ map (get k) added) /\
               (forall i item,
                   nth_error c i = Some item ->
                   has_id productId item = false ->
                   nth_error c i = Some item)).
  { intros c. exists []. simpl. split; [lia|]. split; [lia|]. split; auto.
    intros k _. now rewrite List.app_nil_r. }
  assert (Hassign : forall a,
             exists added : list Product,
               (List.length added <= 1)%nat /\
               List.length (assign_amount productId a (cart w)) =
               (List.length (cart w) + List.length added)%nat /\
               (forall k, k <> "amount" ->
                          map (get k) (assign_amount productId a (cart w)) =
                          map (get k) (cart w) ++ map (get k) added) /\
               (forall i item,
                   nth_error (cart w) i = Some item ->
                   has_id productId item = false ->
                   nth_error (assign_amount productId a (cart w)) i = Some item)).
  { intros a. exists []. simpl. rewrite assign_amount_length.
    split; [lia|]. split; [lia|]. split; auto using assign_amount_others.
    intros k Hk. now rewrite List.app_nil_r, assign_amount_fields. }
  assert (Happend : forall p,
             exists added : list Product,
               (List.length added <= 1)%nat /\
               List.length (cart w ++ [p]) =
               (List.length (cart w) + List.length added)%nat /\
               (forall k, k <> "amount" ->
                          map (get k) (cart w ++ [p]) =
                          map (get k) (cart w) ++ map (get k) added) /\
               (forall i item,
                   nth_error (cart w) i = Some item ->
                   has_id productId item = false ->
                   nth_error (cart w ++ [p]) i = Some item)).
  { intros p. exists [p]. simpl. split; [lia|]. split; [apply length_app|].
    split.
    - intros k _. apply map_app.
    - intros i item Hi _. rewrite nth_error_app1; auto.
      apply nth_error_Some. congruence. }
  branches; simpl; auto.
Qed.

(** X6. What each operation asks of the services: [removeProduct] sends
    no request; [updateProductAmount] sends nothing or the stock request
    alone; [addProduct] always asks the stock first, and asks the catalog
    only after it, for a product the cart does not hold. *)
Theorem requests_sent (productId amount : Z) (e : Env) (w : World) :
  requests (snd (removeProduct productId e w)) = requests w /\
  (requests (snd (updateProductAmount productId amount e w)) = requests w \/
   requests (snd (updateProductAmount productId amount e w)) =
   requests w ++ [GetStock productId]) /\
  (requests (snd (addProduct productId e w)) = requests w ++ [GetStock productId] \/
   find (has_id productId) (cart w) = None /\
   requests (snd (addProduct productId e w)) =
   requests w ++ [GetStock productId; GetProduct productId]).
Proof.
  split; [|split].
  - destruct (find (has_id productId) (cart w)) as [item|] eqn:Hf.
    + destruct (find_some_located _ _ _ Hf) as (before & after & Hloc).
      rewrite (removeProduct_located _ _ _ _ _ _ Hloc).
      destruct (storage_accepts e); simpl; apply List.app_nil_r.
    + rewrite (removeProduct_missing _ _ _ Hf). simpl. apply List.app_nil_r.
  - rewrite updateProductAmount_cases. branches; simpl; auto.
  - rewrite addProduct_cases. branches; simpl; auto.
Qed.

(** X7. Adding a product the cart does not hold and removing it again
    gives the cart back: when the stock allows one unit and the catalog
    answers with the record of that product, [removeProduct] after
    [addProduct] leaves the cart the first call started from, and a store
    that takes the second write then holds the text of that cart. *)
Theorem add_then_remove (productId : Z) (e e' : Env) (w : World)
  (stockAmount : Z) (data : object) :
  find (has_id productId) (cart w) = None ->
  stock_amount e productId = Some stockAmount ->
  1 <= stockAmount ->
  product_data e productId = Some data ->
  get "id" data = Some (VNum productId) ->
  let w' := snd (removeProduct productId e' (snd (addProduct productId e w))) in
  cart w' = cart w /\
  (storage_accepts e' = true ->
   storage w' = Some (JSON.stringify (cart_value (cart w)))).
Proof.
  intros Hf Hs Hle Hd Hid w'. subst w'.
  set (item := set "amount" (VNum 1) data).
  assert (Hloc : located productId (cart (snd (addProduct productId e w)))
                   (cart w) item []).
  { rewrite (addProduct_absent _ _ _ _ _ Hf Hs Hle Hd).
    split; [destruct (storage_accepts e); reflexivity|]. split.
    - intros q Hq. apply (find_none _ _ Hf q Hq).
    - unfold item. rewrite has_id_set_amount. now apply has_id_true. }
  rewrite (removeProduct_located _ _ _ _ _ _ Hloc).
  destruct (storage_accepts e'); simpl; rewrite List.app_nil_r; split; auto.
  discriminate.
Qed.

Lemma add_then_remove_witness :
  let w := holding [in_cart 1 2] in
  let w' := snd (removeProduct 2 (shop 5) (snd (addProduct 2 (shop 5) w))) in
  cart w' = cart w /\
  (storage_accepts (shop 5) = true ->
   storage w' = Some (JSON.stringify (cart_value (cart w)))).
Proof.
  apply (add_then_remove 2 (shop 5) (shop 5) (holding [in_cart 1 2]) 5 (shoe 2));
    [reflexivity | reflexivity | lia | reflexivity | reflexivity].
Defined.

(** X8. In a cart whose ids are unique, a product is gone after
    [removeProduct]: whatever the store does with the write, the cart
    after the call holds no item of that id. *)
Theorem removed_product_is_gone (productId : Z) (e : Env) (w : World) :
  ids_unique (cart w) ->
  find (has_id productId) (cart (snd (removeProduct productId e w))) = None.
Proof.
  intros Hids.
  destruct (find (has_id productId) (cart w)) as [item|] eqn:Hf.
  - destruct (find_some_located _ _ _ Hf) as (before & after & Hloc).
    rewrite (removeProduct_located _ _ _ _ _ _ Hloc).
    assert (Hgone : find (has_id productId) (before ++ after) = None).
    { destruct Hloc as (Hc & Hb & Hi). apply find_none_all.
      intros q Hq. apply in_app_or in Hq as [Hq|Hq]; [now apply Hb|].
      destruct (has_id productId q) eqn:Hq'; [|reflexivity]. exfalso.
      unfold ids_unique in Hids. rewrite Hc, map_app in Hids. simpl in Hids.
      apply NoDup_remove_2 in Hids. apply Hids, in_or_app. right.
      apply has_id_true in Hi. apply has_id_true in Hq'.
      rewrite Hi, <- Hq'. now apply in_map. }
    destruct (storage_accepts e); exact Hgone.
  - now rewrite (removeProduct_missing _ _ _ Hf).
Qed.

Lemma removed_product_is_gone_witness :
  find (has_id 1)
    (cart (snd (removeProduct 1 (full_store 5) (holding [in_cart 2 1; in_cart 1 4]))))
  = None.
Proof.
  apply (removed_product_is_gone 1 (full_store 5) (holding [in_cart 2 1; in_cart 1 4])).
  unfold ids_unique. simpl. repeat constructor; simpl; intuition discriminate.
Defined.

(** X9. On an item the cart holds, [addProduct] does what
    [updateProductAmount] does with the item's amount plus one: under the
    same answers of the services, both calls end with the same cart, the
    same stored value and the same requests sent. *)
Theorem add_is_update_to_next (productId a : Z) (e : Env) (w : World)
  (item : Product) :
  find (has_id productId) (cart w) = Some item ->
  get "amount" item = Some (VNum a) ->
  0 <= a ->
  let added := snd (addProduct productId e w) in
  let updated := snd (updateProductAmount productId (a + 1) e w) in
  cart added = cart updated /\
  storage added = storage updated /\
  requests added = requests updated.
Proof.
  intros Hf Ha Hpos added updated. subst added updated.
  rewrite addProduct_cases, updateProductAmount_cases, Hf, Ha.
  replace (a + 1 <=? 0) with false by (symmetry; apply Z.leb_gt; lia).
  branches; simpl; auto.
Qed.

Lemma add_is_update_to_next_witness :
  let w := holding [in_cart 2 1; in_cart 1 2] in
  let added := snd (addProduct 1 (shop 5) w) in
  let updated := snd (updateProductAmount 1 (2 + 1) (shop 5) w) in
  cart added = cart updated /\
  storage added = storage updated /\
  requests added = requests updated.
Proof.
  apply (add_is_update_to_next 1 2 (shop 5) (holding [in_cart 2 1; in_cart 1 2])
           (in_cart 1 2)); [reflexivity | reflexivity | lia].
Defined.

(** X10. The provider can always start again from what it stored: in
    every world it can reach, the initializer reads the stored value
    without throwing, and the cart it loads has amounts of at least one
    and unique ids. *)
Theorem restart_from_store (w : World) :
  reachable w ->
  exists c,
    initial_cart (storage w) = Some c /\
    amounts_positive c /\ ids_unique c.
Proof.
  intros Hr. destruct (reachable_ok w Hr) as [_ Hs].
  assert (Hok : forall c, cart_ok c -> amounts_positive c /\ ids_unique c).
  { intros c [Hall Hids]. split; [|exact Hids].
    intros item Hin. rewrite Forall_forall in Hall.
    now destruct (Hall item Hin) as (_ & Ha & _). }
  destruct (storage w) as [text|].
  - destruct Hs as (c & -> & Hc). exists c. split; [|now apply Hok].
    apply initial_cart_stored. now apply cart_ok_wf.
  - exists []. split; [reflexivity|]. apply Hok, cart_ok_nil.
Qed.

Lemma restart_from_store_witness :
  exists c,
    initial_cart (storage session) = Some c /\
    amounts_positive c /\ ids_unique c.
Proof.
  apply (restart_from_store session).
  unfold session. apply reach_mount; [|reflexivity].
  apply reach_remove, reach_update.
  repeat (apply reach_add; [|apply shop_serves]).
  apply reach_start.
Defined.

(** X11. [removeProduct] when the store refuses the write: the item is
    removed from the cart in memory all the same, the removal-failed
    notification is shown and the stored value is the one before the
    call, which still lists the item. *)
Theorem removeProduct_refused_write (productId : Z) (e : Env) (w : World)
  (before after : list Product) (item : Product) :
  located productId (cart w) before item after ->
  storage_accepts e = false ->
  removeProduct productId e w =
  (Normal tt,
   mkWorld (before ++ after) (storage w) (toasts w ++ [remove_failed]) (requests w)).
Proof.
  intros Hloc Hno. rewrite (removeProduct_located _ _ _ _ _ _ Hloc), Hno.
  unfold unsaved. now rewrite List.app_nil_r.
Qed.

Lemma removeProduct_refused_write_witness :
  removeProduct 1 (full_store 5) (holding [in_cart 1 2; in_cart 2 1]) =
  (Normal tt,
   mkWorld [in_cart 2 1] (Some (JSON.stringify (cart_value [in_cart 1 2; in_cart 2 1])))
     [remove_failed] []).
Proof.
  apply (removeProduct_refused_write 1 (full_store 5)
           (holding [in_cart 1 2; in_cart 2 1]) [] [in_cart 2 1] (in_cart 1 2));
    [|reflexivity].
  repeat split. intros q [].
Defined.

(** X12. [updateProductAmount] with a positive amount when a step raises:
    a rejected stock fetch shows the update-failed notification and
    changes neither the cart nor the stored value; a refused write shows
    the same notification and leaves the stored value as it was, while
    the cart in memory already holds the new amount. *)
Theorem updateProductAmount_failure (productId amount : Z) (e : Env) (w : World) :
  amount > 0 ->
  (stock_amount e productId = None ->
   updateProductAmount productId amount e w =
   (Normal tt, refused update_failed [GetStock productId] w)) /\
  (forall stockAmount before item after,
      stock_amount e productId = Some stockAmount ->
      amount <= stockAmount ->
      located productId (cart w) before item after ->
      storage_accepts e = false ->
      updateProductAmount productId amount e w =
      (Normal tt,
       mkWorld (before ++ set "amount" (VNum amount) item :: after) (storage w)
         (toasts w ++ [update_failed]) (requests w ++ [GetStock productId]))).
Proof.
  intros Hpos. rewrite updateProductAmount_cases.
  replace (amount <=? 0) with false by (symmetry; apply Z.leb_gt; lia).
  split.
  - now intros ->.
  - intros stockAmount before item after -> Hle Hloc ->.
    rewrite gtb_false by assumption.
    rewrite (find_located _ _ _ _ _ Hloc). simpl.
    now rewrite (assign_amount_located _ _ _ _ _ _ Hloc).
Qed.

Lemma updateProductAmount_failure_witness :
  updateProductAmount 1 3 offline (holding [in_cart 1 1]) =
  (Normal tt, refused update_failed [GetStock 1] (holding [in_cart 1 1])) /\
  updateProductAmount 1 3 (full_store 5) (holding [in_cart 1 1]) =
  (Normal tt,
   mkWorld [in_cart 1 3] (Some (JSON.stringify (cart_value [in_cart 1 1])))
     [update_failed] [GetStock 1]).
Proof.
  split.
  - destruct (updateProductAmount_failure 1 3 offline (holding [in_cart 1 1]))
      as [Hstock _]; [lia|].
    apply Hstock. reflexivity.
  - destruct (updateProductAmount_failure 1 3 (full_store 5) (holding [in_cart 1 1]))
      as [_ Hwrite]; [lia|].
    apply (Hwrite 5 [] (in_cart 1 1) []); [reflexivity | lia | | reflexivity].
    repeat split. intros q [].
Defined.


Lemma reload_in_sync (w : World) :
  reachable w -> in_sync w -> initial_cart (storage w) = Some (cart w).
Proof.
  intros Hr [Hs|[Hs Hc]].
  - rewrite Hs. apply initial_cart_stored, cart_ok_wf.
    now destruct (reachable_ok w Hr).
  - now rewrite Hs, Hc.
Qed.

Lemma refusing_store_unwritten (productId amount : Z) (e : Env) (w : World) :
  storage_accepts e = false ->
  storage (snd (addProduct productId e w)) = storage w /\
  storage (snd (removeProduct productId e w)) = storage w /\
  storage (snd (updateProductAmount productId amount e w)) = storage w.
Proof.
  intros Hno. split; [|split].
  - rewrite addProduct_cases, Hno. branches; reflexivity.
  - destruct (find (has_id productId) (cart w)) as [item|] eqn:Hf.
    + destruct (find_some_located _ _ _ Hf) as (before & after & Hloc).
      now rewrite (removeProduct_located _ _ _ _ _ _ Hloc), Hno.
    + now rewrite (removeProduct_missing _ _ _ Hf).
  - rewrite updateProductAmount_cases, Hno. branches; reflexivity.
Qed.

(** X14. Reloading changes nothing while the store agrees with the
    memory: in a world the provider can reach, if the stored value is the
    text of the cart (or nothing is stored and the cart is empty), the
    initializer loads exactly the cart in memory. *)
Theorem reload_keeps_cart (w : World) :
  reachable w ->
  in_sync w ->
  initial_cart (storage w) = Some (cart w).
Proof.
  apply reload_in_sync.
Qed.

Lemma reload_keeps_cart_witness :
  initial_cart (storage session) = Some (cart session).
Proof.
  apply (reload_keeps_cart session).
  - unfold session. apply reach_mount; [|reflexivity].
    apply reach_remove, reach_update.
    repeat (apply reach_add; [|apply shop_serves]).
    apply reach_start.
  - left. reflexivity.
Defined.

(** X15. A change whose write the store refused is lost at the next
    reload: from a reachable world whose store agrees with the memory,
    after any of the three operations run against a store that refuses
    the write, the initializer loads the cart from before the call. *)
Theorem refused_write_lost_on_reload (productId amount : Z) (e : Env) (w : World) :
  reachable w ->
  in_sync w ->
  storage_accepts e = false ->
  initial_cart (storage (snd (addProduct productId e w))) = Some (cart w) /\
  initial_cart (storage (snd (removeProduct productId e w))) = Some (cart w) /\
  initial_cart (storage (snd (updateProductAmount productId amount e w))) =
  Some (cart w).
Proof.
  intros Hr Hsync Hno.
  destruct (refusing_store_unwritten productId amount e w Hno) as (-> & -> & ->).
  pose proof (reload_in_sync w Hr Hsync). auto.
Qed.

Lemma refused_write_lost_on_reload_witness :
  initial_cart (storage (snd (addProduct 1 (full_store 5) session))) =
  Some (cart session) /\
  initial_cart (storage (snd (removeProduct 2 (full_store 5) session))) =
  Some (cart session) /\
  initial_cart (storage (snd (updateProductAmount 2 1 (full_store 5) session))) =
  Some (cart session).
Proof.
  assert (Hr : reachable session).
  { unfold session. apply reach_mount; [|reflexivity].
    apply reach_remove, reach_update.
    repeat (apply reach_add; [|apply shop_serves]).
    apply reach_start. }
  destruct (refused_write_lost_on_reload 1 1 (full_store 5) session Hr)
    as (Hadd & _ & _); [left; reflexivity | reflexivity |].
  destruct (refused_write_lost_on_reload 2 1 (full_store 5) session Hr)
    as (_ & Hremove & Hupdate); [left; reflexivity | reflexivity |].
  auto.
Defined.
